(** * AEGIS Protocol, static/js/main.js: a model of the page script

    The script is thin glue over browser objects.  The development embeds
    the script's own code (the DOMContentLoaded callback, the callbacks it
    registers, [toggleMobileMenu] and the top-level statements) as
    functions in a small state-and-exception monad over a model of the
    page: the element tree, the timer queue, the listener table, the
    dialogs shown and the global object.  Every property access and method
    call of the script on an element is recorded in a trace, so that its
    footprint can be stated.

    The browser is modelled as far as the script uses it:
    - an event visits its target and then the ancestors of the target,
      innermost first, and at each of them the listeners attached for the
      type of the event run in the order of their registration; a
      listener that throws is abandoned and the event goes on;
    - a property the script reads may be missing: [href], [value] and
      [files] are optional, and calling a method on a missing [value] or
      indexing missing [files] throws a TypeError;
    - the class attribute of an element is the list of its tokens, and
      [classList.toggle] writes it back from the token set, with the
      token removed or appended at the end;
    - the user answers the confirmation dialogs of one event one by one;
    - an element that is removed leaves the model with everything below
      it; the script makes no further use of a removed alert;
    - time is a clock in milliseconds, and [advance_to] lets every timer
      fire exactly when it is due. *)

From Stdlib Require Import Ascii String List.
From stdpp Require Import base numbers strings gmap sets.
From stdpp Require Import list.

Set Warnings "-clear-no-such-hyp,-register-all".
Set Default Proof Using "Type".
Open Scope string_scope.
Open Scope list_scope.

(** ** JavaScript strings *)

Module JsString.

(** A JavaScript string is a sequence of UTF-16 code units. *)
Definition t := list N.

(** A literal of the source; every literal of main.js is ASCII. *)
Definition lit (s : string) : t :=
  (λ c, N_of_ascii c) <$> list_ascii_of_string s.

(** [!s] is true exactly for the empty string. *)
Definition truthy (s : t) : bool :=
  match s with [] => false | _ :: _ => true end.

(** WhiteSpace and LineTerminator code points of ECMAScript, the ones
    [String.prototype.trim] strips: TAB, LF, VT, FF, CR, SP, NBSP, the
    Unicode space separators, LS, PS and the byte-order mark. *)
Definition is_white_space (c : N) : bool :=
  ((9 <=? c) && (c <=? 13) || (c =? 32) || (c =? 160) || (c =? 5760)
   || (8192 <=? c) && (c <=? 8202) || (c =? 8232) || (c =? 8233)
   || (c =? 8239) || (c =? 8287) || (c =? 12288) || (c =? 65279))%N.

Fixpoint trim_start (s : t) : t :=
  match s with
  | c :: s' => if is_white_space c then trim_start s' else s
  | [] => []
  end.

Definition trim_end (s : t) : t := reverse (trim_start (reverse s)).

(** [s.trim()] *)
Definition trim (s : t) : t := trim_end (trim_start s).

Fixpoint starts_with (pat s : t) : bool :=
  match pat, s with
  | [], _ => true
  | p :: pat', c :: s' => (p =? c)%N && starts_with pat' s'
  | _ :: _, [] => false
  end.

(** [s.includes(pat)] *)
Fixpoint includes (s pat : t) : bool :=
  starts_with pat s ||
  match s with
  | _ :: s' => includes s' pat
  | [] => false
  end.

(** A value the handler treats as missing: [!value.trim()]. *)
Definition blank (s : t) : bool := negb (truthy (trim s)).

End JsString.

Abbreviation jsstring := JsString.t.

(** ** Elements and the document tree *)

(** The inline style properties the script assigns. *)
Record inline_style := Style {
  borderColor : string;
  opacity : string;
  transition : string;
}.

(** The properties of an element the script touches.  [classList] holds
    the tokens of the class attribute in the order they are written.
    [href] is [None] where the element has no href, [value] where it has
    no value or one that is not a string, and [files] where it has no
    list of files: a <div> has none of the three, a link has [href], a
    text control has [value] and a file input has [value] and [files].
    A link inside an <svg>, whose href is an object and not a string, is
    outside the model. *)
Record element := Element {
  tagName : string;
  classList : list string;
  required : bool;
  type_attr : string;
  href : option jsstring;
  value : option jsstring;
  files : option (list jsstring);
  style : inline_style;
}.

Unset Elimination Schemes.
Inductive node := Node (nid : nat) (el : element) (kids : list node).
Set Elimination Schemes.

(** A document is the forest of its top-level elements; a node identity
    [nid] stands for the JavaScript object reference. *)
Abbreviation document := (list node).

Definition node_id (n : node) : nat := match n with Node i _ _ => i end.

Section node_induction.
Variable P : node → Prop.
Hypothesis P_node : ∀ i e ks, Forall P ks → P (Node i e ks).

Fixpoint node_ind (n : node) : P n :=
  match n with
  | Node i e ks =>
      P_node i e ks
        ((fix go (l : list node) : Forall P l :=
            match l with
            | [] => List.Forall_nil P
            | k :: l' => List.Forall_cons P k l' (node_ind k) (go l')
            end) ks)
  end.
End node_induction.

(** Elements in document order (preorder), with their identities. *)
Fixpoint flat_node (n : node) : list (nat * element) :=
  match n with Node i e ks => (i, e) :: (ks ≫= flat_node) end.

Definition flat (d : document) : list (nat * element) := d ≫= flat_node.

Definition ids (d : document) : list nat := (flat d).*1.

(** The element object behind a reference; [None] for a reference to an
    element that is not in the document. *)
Fixpoint first_with_id (i : nat) (l : list (nat * element)) : option element :=
  match l with
  | [] => None
  | (j, e) :: l' => if decide (j = i) then Some e else first_with_id i l'
  end.

Definition get (i : nat) (d : document) : option element := first_with_id i (flat d).

(** The children of the element [i] (the first node of that identity). *)
Fixpoint kids_of_node (i : nat) (n : node) : option document :=
  match n with
  | Node j e ks =>
      if decide (j = i) then Some ks
      else (fix go (l : list node) : option document :=
              match l with
              | [] => None
              | k :: l' =>
                  match kids_of_node i k with
                  | Some r => Some r
                  | None => go l'
                  end
              end) ks
  end.

Fixpoint kids_of (i : nat) (d : document) : option document :=
  match d with
  | [] => None
  | k :: d' =>
      match kids_of_node i k with
      | Some r => Some r
      | None => kids_of i d'
      end
  end.

(** Assignment to properties of the element [i]. *)
Fixpoint update_node (i : nat) (f : element → element) (n : node) : node :=
  match n with
  | Node j e ks =>
      Node j (if decide (j = i) then f e else e) (update_node i f <$> ks)
  end.

Definition update (i : nat) (f : element → element) (d : document) : document :=
  update_node i f <$> d.

(** [i.remove()]: the element leaves the tree with everything below it. *)
Fixpoint remove_node (i : nat) (n : node) : option node :=
  match n with
  | Node j e ks =>
      if decide (j = i) then None else Some (Node j e (omap (remove_node i) ks))
  end.

Definition remove (i : nat) (d : document) : document := omap (remove_node i) d.

(** [i.nextElementSibling]: [Some None] is [null], the outer [None] means
    that [i] is not in the tree. *)
Definition head_id (d : document) : option nat := node_id <$> head d.

Fixpoint sibling_in_node (i : nat) (next : option nat) (n : node) : option (option nat) :=
  match n with
  | Node j e ks =>
      if decide (j = i) then Some next
      else (fix go (l : list node) : option (option nat) :=
              match l with
              | [] => None
              | k :: l' =>
                  match sibling_in_node i (head_id l') k with
                  | Some r => Some r
                  | None => go l'
                  end
              end) ks
  end.

Fixpoint sibling_in (i : nat) (d : document) : option (option nat) :=
  match d with
  | [] => None
  | k :: d' =>
      match sibling_in_node i (head_id d') k with
      | Some r => Some r
      | None => sibling_in i d'
      end
  end.

(** The ancestors of the element [i], the parent first; [None] means that
    [i] is not in the tree. *)
Fixpoint ancestors_in_node (i : nat) (n : node) : option (list nat) :=
  match n with
  | Node j e ks =>
      if decide (j = i) then Some []
      else (fix go (l : list node) : option (list nat) :=
              match l with
              | [] => None
              | k :: l' =>
                  match ancestors_in_node i k with
                  | Some up => Some (up ++ [j])
                  | None => go l'
                  end
              end) ks
  end.

Fixpoint ancestors (i : nat) (d : document) : option (list nat) :=
  match d with
  | [] => None
  | k :: d' =>
      match ancestors_in_node i k with
      | Some up => Some up
      | None => ancestors i d'
      end
  end.

(** The elements an event on [target] visits, the target first. *)
Definition event_path (target : nat) (d : document) : list nat :=
  target :: default [] (ancestors target d).

(** [parent.appendChild(n)], an action of the page or of another script. *)
Fixpoint append_in_node (p : nat) (n : node) (m : node) : node :=
  match m with
  | Node j e ks =>
      if decide (j = p) then Node j e (ks ++ [n])
      else Node j e (append_in_node p n <$> ks)
  end.

Definition appendChild (p : nat) (n : node) (d : document) : document :=
  append_in_node p n <$> d.

(** The selectors of the source. *)
Inductive selector :=
  | ByClass (c : string)      (* '.alert', '.btn-danger', '.sidebar' *)
  | ByTag (t : string)        (* 'form' *)
  | HasRequired               (* '[required]' *)
  | FileInput.                (* 'input[type="file"]' *)

Definition matches (sel : selector) (e : element) : bool :=
  match sel with
  | ByClass c => bool_decide (c ∈ classList e)
  | ByTag t => bool_decide (tagName e = t)
  | HasRequired => required e
  | FileInput => bool_decide (tagName e = "INPUT") && bool_decide (type_attr e = "file")
  end.

(** [root.querySelectorAll(sel)] over the forest below [root]. *)
Definition select (sel : selector) (d : document) : list nat :=
  (filter (λ p, matches sel p.2 = true) (flat d)).*1.

(** ** The page: everything the script can see or change *)

(** The two closures the script hands to [setTimeout], with the alert
    element each of them captures. *)
Inductive task :=
  | FadeOut (alert : nat)     (* lines 8-14 *)
  | RemoveAlert (alert : nat) (* lines 11-13 *).

Record timer := Timer { due : N; job : task }.

Inductive event_type := Click | Submit | Change.

(** The closures the script hands to [addEventListener] on elements.  The
    submit listener captures [form]; the change listener uses [this]. *)
Inductive listener :=
  | ConfirmDelete             (* lines 21-25 *)
  | ValidateForm (form : nat) (* lines 32-49 *)
  | FileChange                (* lines 55-61 *).

Record binding := Binding { b_target : nat; b_type : event_type; b_listener : listener }.

Inductive dialog := AlertBox (msg : string) | ConfirmBox (msg : string).

Inductive func := ToggleMobileMenu.

Inductive jsvalue :=
  | VFunction (f : func)
  | VObject (members : gmap string func).

Record page := Page {
  doc : document;
  clock : N;                       (* milliseconds *)
  timers : list timer;             (* pending timeouts, in order of registration *)
  listeners : list binding;        (* element listeners, in order of registration *)
  ready_listeners : nat;           (* DOMContentLoaded listeners on [document] *)
  dialogs : list dialog;           (* dialogs shown so far, oldest first *)
  globals : gmap string jsvalue;   (* properties of the global object *)
}.

Definition set_doc (f : document → document) (p : page) : page :=
  Page (f (doc p)) (clock p) (timers p) (listeners p) (ready_listeners p) (dialogs p) (globals p).
Definition set_clock (f : N → N) (p : page) : page :=
  Page (doc p) (f (clock p)) (timers p) (listeners p) (ready_listeners p) (dialogs p) (globals p).
Definition set_timers (f : list timer → list timer) (p : page) : page :=
  Page (doc p) (clock p) (f (timers p)) (listeners p) (ready_listeners p) (dialogs p) (globals p).
Definition set_listeners (f : list binding → list binding) (p : page) : page :=
  Page (doc p) (clock p) (timers p) (f (listeners p)) (ready_listeners p) (dialogs p) (globals p).
Definition set_ready_listeners (f : nat → nat) (p : page) : page :=
  Page (doc p) (clock p) (timers p) (listeners p) (f (ready_listeners p)) (dialogs p) (globals p).
Definition set_dialogs (f : list dialog → list dialog) (p : page) : page :=
  Page (doc p) (clock p) (timers p) (listeners p) (ready_listeners p) (f (dialogs p)) (globals p).
Definition set_globals (f : gmap string jsvalue → gmap string jsvalue) (p : page) : page :=
  Page (doc p) (clock p) (timers p) (listeners p) (ready_listeners p) (dialogs p) (f (globals p)).

(** A page as the browser hands it to the script: nothing registered. *)
Definition fresh (d : document) (t0 : N) : page := Page d t0 [] [] 0 [] ∅.

(** ** The monad of callbacks *)

Inductive access_kind := Read | Write.

(** One property access or method call of the script on an element. *)
Record access := Access { a_elem : nat; a_prop : string; a_kind : access_kind }.

(** What a callback runs against: the page, the [defaultPrevented] flag of
    the event being dispatched, the number of confirmation dialogs the
    user has answered during this event, and the trace of element
    accesses. *)
Record machine := Machine {
  pg : page;
  defaultPrevented : bool;
  asked : nat;
  trace : list access;
}.

(** A callback returns or throws (all that main.js can throw is a
    TypeError); either way it leaves a machine behind. *)
Inductive outcome (A : Type) :=
  | Returned (a : A)
  | Thrown.

Arguments Returned {A} a.
Arguments Thrown {A}.

Definition M (A : Type) : Type := machine → outcome A * machine.

Global Instance M_ret : MRet M := λ A x m, (Returned x, m).
Global Instance M_bind : MBind M := λ A B f c m,
  match c m with
  | (Returned x, m') => f x m'
  | (Thrown, m') => (Thrown, m')
  end.

Definition throw {A} : M A := λ m, (Thrown, m).

(** The browser runs a callback and reports what it throws. *)
Definition attempt (c : M unit) : M unit := λ m, (Returned tt, (c m).2).

Definition gets {A} (f : page → A) : M A := λ m, (Returned (f (pg m)), m).

Definition on_page (f : page → page) : M unit :=
  λ m, (Returned tt, Machine (f (pg m)) (defaultPrevented m) (asked m) (trace m)).

Definition touch (i : nat) (prop : string) (k : access_kind) : M unit :=
  λ m, (Returned tt,
        Machine (pg m) (defaultPrevented m) (asked m) (trace m ++ [Access i prop k])).

(** Reading a property of the element [i]; [dflt] stands for the property
    of an element outside the document, which main.js never reads. *)
Definition read {A} (prop : string) (f : element → A) (dflt : A) (i : nat) : M A :=
  touch i prop Read;;
  gets (λ p, from_option f dflt (get i (doc p))).

(** Writing properties of the element [i]. *)
Definition write (prop : string) (f : element → element) (i : nat) : M unit :=
  touch i prop Write;; on_page (set_doc (update i f)).

(** [list.forEach(body)]: an exception of the body ends the loop. *)
Fixpoint forEach {A} (l : list A) (body : A → M unit) : M unit :=
  match l with
  | [] => mret tt
  | x :: l' => body x;; forEach l' body
  end.

(** *** Browser operations used by the script *)

Definition document_querySelectorAll (sel : selector) : M (list nat) :=
  gets (λ p, select sel (doc p)).

Definition document_querySelector (sel : selector) : M (option nat) :=
  gets (λ p, head (select sel (doc p))).

Definition querySelectorAll (root : nat) (sel : selector) : M (list nat) :=
  touch root "querySelectorAll" Read;;
  gets (λ p, select sel (default [] (kids_of root (doc p)))).

Definition setTimeout (j : task) (delay : N) : M unit :=
  on_page (λ p, set_timers (λ ts, ts ++ [Timer (clock p + delay) j]) p).

Definition addEventListener (i : nat) (ty : event_type) (l : listener) : M unit :=
  touch i "addEventListener" Write;;
  on_page (set_listeners (λ ls, ls ++ [Binding i ty l])).

Definition preventDefault : M unit :=
  λ m, (Returned tt, Machine (pg m) true (asked m) (trace m)).

Definition alert (msg : string) : M unit :=
  on_page (set_dialogs (λ ds, ds ++ [AlertBox msg])).

(** [confirm(msg)] blocks until the user answers; [user n] is the answer
    to the dialog shown after [n] earlier ones of the same event. *)
Definition confirm (user : nat → bool) (msg : string) : M bool :=
  λ m, (Returned (user (asked m)),
        Machine (set_dialogs (λ ds, ds ++ [ConfirmBox msg]) (pg m))
          (defaultPrevented m) (S (asked m)) (trace m)).

Definition set_borderColor (v : string) (e : element) : element :=
  Element (tagName e) (classList e) (required e) (type_attr e) (href e) (value e)
    (files e) (Style v (opacity (style e)) (transition (style e))).
Definition set_opacity (v : string) (e : element) : element :=
  Element (tagName e) (classList e) (required e) (type_attr e) (href e) (value e)
    (files e) (Style (borderColor (style e)) v (transition (style e))).
Definition set_transition (v : string) (e : element) : element :=
  Element (tagName e) (classList e) (required e) (type_attr e) (href e) (value e)
    (files e) (Style (borderColor (style e)) (opacity (style e)) v).

(** The token set of a class attribute: every token once, at its first
    place. *)
Fixpoint ordered_set (l : list string) : list string :=
  match l with
  | [] => []
  | t :: l' => t :: filter (λ u, u ≠ t) (ordered_set l')
  end.

(** [classList.toggle(c)]: a token that is in the token set is removed
    from it, one that is not is appended, and the class attribute is
    written back from the token set. *)
Definition toggle_class (c : string) (e : element) : element :=
  Element (tagName e)
    (if decide (c ∈ classList e) then filter (λ t, t ≠ c) (ordered_set (classList e))
     else ordered_set (classList e) ++ [c])
    (required e) (type_attr e) (href e) (value e) (files e) (style e).

Definition nextElementSibling (i : nat) : M (option nat) :=
  touch i "nextElementSibling" Read;;
  gets (λ p, default None (sibling_in i (doc p))).

(** ** main.js *)

(** Lines 8-14 and 11-13: the two timer callbacks. *)
Definition run_task (j : task) : M unit :=
  match j with
  | FadeOut alert =>
      write "style.transition" (set_transition "opacity 0.5s") alert;;
      write "style.opacity" (set_opacity "0") alert;;
      setTimeout (RemoveAlert alert) 500
  | RemoveAlert alert =>
      touch alert "remove" Write;; on_page (set_doc (remove alert))
  end.

(** Line 20: [button.href && button.href.includes('delete')]. *)
Definition is_delete_link (h : option jsstring) : bool :=
  match h with
  | Some u => JsString.truthy u && JsString.includes u (JsString.lit "delete")
  | None => false
  end.

(** Lines 21-25: the click listener of a delete button. *)
Definition confirm_delete (user : nat → bool) : M unit :=
  ok ← confirm user "Are you sure you want to delete this item?";
  if negb ok then preventDefault else mret tt.

(** Lines 36-43: the body of [requiredFields.forEach], with the captured
    [isValid] passed through.  [field.value.trim()] throws where the
    element has no string [value]. *)
Definition check_field (isValid : bool) (field : nat) : M bool :=
  v ← read "value" value None field;
  match v with
  | None => throw
  | Some s =>
      if negb (JsString.truthy (JsString.trim s)) then
        write "style.borderColor" (set_borderColor "#ef4444") field;; mret false
      else
        write "style.borderColor" (set_borderColor "#e5e7eb") field;; mret isValid
  end.

Fixpoint check_fields (isValid : bool) (fields : list nat) : M bool :=
  match fields with
  | [] => mret isValid
  | field :: rest => ok ← check_field isValid field; check_fields ok rest
  end.

(** Lines 32-49: the submit listener of [form]. *)
Definition validate_form (form : nat) : M unit :=
  requiredFields ← querySelectorAll form HasRequired;
  isValid ← check_fields true requiredFields;
  if negb isValid then
    preventDefault;; alert "Please fill in all required fields."
  else mret tt.

(** Lines 55-61: the change listener of a file input.  [this.files[0]]
    throws where [this] has no [files]. *)
Definition file_change (this : nat) : M unit :=
  fs ← read "files" files None this;
  match fs with
  | None => throw
  | Some l =>
      let fileName := match l with f :: _ => f | [] => JsString.lit "No file chosen" end in
      label ← nextElementSibling this;
      match label with
      | Some sibling =>
          t ← read "tagName" tagName "" sibling;
          if decide (t = "SMALL") then mret tt else mret tt
      | None => mret tt
      end
  end.

(** Lines 4-63: the DOMContentLoaded callback. *)
Definition init : M unit :=
  alerts ← document_querySelectorAll (ByClass "alert");
  forEach alerts (λ alert, setTimeout (FadeOut alert) 5000);;
  deleteButtons ← document_querySelectorAll (ByClass "btn-danger");
  forEach deleteButtons (λ button,
    h ← read "href" href None button;
    if is_delete_link h then addEventListener button Click ConfirmDelete
    else mret tt);;
  forms ← document_querySelectorAll (ByTag "FORM");
  forEach forms (λ form, addEventListener form Submit (ValidateForm form));;
  fileInputs ← document_querySelectorAll FileInput;
  forEach fileInputs (λ input, addEventListener input Change FileChange).

(** Lines 66-71. *)
Definition toggleMobileMenu : M unit :=
  sidebar ← document_querySelector (ByClass "sidebar");
  match sidebar with
  | Some sb => write "classList" (toggle_class "mobile-open") sb
  | None => mret tt
  end.

Definition call (f : func) : M unit :=
  match f with ToggleMobileMenu => toggleMobileMenu end.

(** How the page includes the file.  In a classic script a top-level
    function declaration becomes a property of the global object; in a
    module it stays local to the module. *)
Inductive script_kind := Classic | Module.

(** The top level of the file: the hoisted declaration of line 66, the
    registration of line 4 and the assignment of lines 74-76. *)
Definition script (k : script_kind) : M unit :=
  (match k with
   | Classic => on_page (set_globals (insert "toggleMobileMenu" (VFunction ToggleMobileMenu)))
   | Module => mret tt
   end);;
  on_page (set_ready_listeners S);;
  on_page (set_globals (insert "AEGIS" (VObject {[ "toggleMobileMenu" := ToggleMobileMenu ]}))).

(** ** Running callbacks *)

(** A callback runs to completion against the page, on a new event whose
    default action is not yet prevented, with an empty trace. *)
Definition exec (c : M unit) (p : page) : machine := (c (Machine p false 0 [])).2.

Definition loadScript (k : script_kind) (p : page) : machine := exec (script k) p.

(** The browser fires DOMContentLoaded on [document] once: each listener
    registered there (all of them are [init]) runs. *)
Definition DOMContentLoaded (p : page) : machine :=
  exec (Nat.iter (ready_listeners p) (λ rest, attempt init;; rest) (mret tt)) p.

(** The page after the file was included once and the document got ready. *)
Definition loaded (k : script_kind) (d : document) (t0 : N) : page :=
  pg (DOMContentLoaded (pg (loadScript k (fresh d t0)))).

Global Instance event_type_eq_dec : EqDecision event_type.
Proof. solve_decision. Defined.

Definition listeners_of (i : nat) (ty : event_type) (ls : list binding) : list listener :=
  b_listener <$> filter (λ b, b_target b = i ∧ b_type b = ty) ls.

(** A listener runs with [this] bound to the element it is attached to. *)
Definition run_listener (this : nat) (user : nat → bool) (l : listener) : M unit :=
  match l with
  | ConfirmDelete => confirm_delete user
  | ValidateForm form => validate_form form
  | FileChange => file_change this
  end.

(** The listeners an event of type [ty] meets on its path, each with the
    element it is attached to. *)
Definition listeners_on_path (ty : event_type) (path : list nat) (ls : list binding)
    : list (nat * listener) :=
  path ≫= λ cur, (λ l, (cur, l)) <$> listeners_of cur ty ls.

(** An event of type [ty] fires on the element [target] and bubbles: the
    listeners attached for [ty] to the target, then to its parent, and so
    on up the tree, run one after the other.  [user] gives the answers of
    the user to the confirmation dialogs. *)
Definition dispatch (ty : event_type) (target : nat) (user : nat → bool) (p : page)
    : machine :=
  exec (forEach (listeners_on_path ty (event_path target (doc p)) (listeners p))
          (λ cl, attempt (run_listener cl.1 user cl.2))) p.

(** The default action of the event (navigation, submission) takes place
    unless a listener prevented it. *)
Definition default_action_runs (m : machine) : bool := negb (defaultPrevented m).

(** Another script calls [window.<ns>.<name>()]; [None] is the TypeError
    of a missing namespace or member. *)
Definition call_member (ns name : string) (p : page) : option machine :=
  match globals p !! ns with
  | Some (VObject members) => (λ f, exec (call f) p) <$> members !! name
  | _ => None
  end.

(** Another script calls the global function [name]. *)
Definition call_global (name : string) (p : page) : option machine :=
  match globals p !! name with
  | Some (VFunction f) => Some (exec (call f) p)
  | _ => None
  end.

(** *** Timers *)

(** The pending timer that is due first; among equals the one registered
    first.  It is returned with the rest of the queue. *)
Fixpoint next_timer (ts : list timer) : option (timer * list timer) :=
  match ts with
  | [] => None
  | tm :: ts' =>
      match next_timer ts' with
      | Some (m, rest) =>
          if (due m <? due tm)%N then Some (m, tm :: rest) else Some (tm, ts')
      | None => Some (tm, [])
      end
  end.

(** The timer [tm] fires: it leaves the queue and its callback runs, not
    before it is due. *)
Definition fire_timer (tm : timer) (rest : list timer) (p : page) : machine :=
  exec (run_task (job tm)) (set_clock (N.max (due tm)) (set_timers (λ _, rest) p)).

(** A [FadeOut] registers one more timer, a [RemoveAlert] none. *)
Definition task_weight (j : task) : nat :=
  match j with FadeOut _ => 2 | RemoveAlert _ => 1 end.

Definition queue_weight (ts : list timer) : nat := sum_list (task_weight ∘ job <$> ts).

Fixpoint run_timers (fuel : nat) (t : N) (p : page) : page :=
  match fuel with
  | 0 => p
  | S fuel' =>
      match next_timer (timers p) with
      | Some (tm, rest) =>
          if (due tm <=? t)%N then run_timers fuel' t (pg (fire_timer tm rest p)) else p
      | None => p
      end
  end.

(** Time passes until [t] with every timer firing exactly when it is due. *)
Definition advance_to (t : N) (p : page) : page :=
  set_clock (N.max t) (run_timers (queue_weight (timers p)) t p).

(** ** Sample pages *)

Module Sample.

Definition plain (tag : string) (classes : list string) : element :=
  Element tag classes false "" None None None (Style "" "" "").

Definition input : element :=
  Element "INPUT" [] false "text" None (Some []) None (Style "" "" "").

Definition field (v : string) : element :=
  Element "INPUT" [] true "text" None (Some (JsString.lit v)) None (Style "" "" "").

Definition link (classes : list string) (url : string) : element :=
  Element "A" classes false "" (Some (JsString.lit url)) None None (Style "" "" "").

Definition file_input : element :=
  Element "INPUT" [] false "file" None (Some []) (Some []) (Style "" "" "").

Definition login_fields : document :=
  [Node 6 (field "bob") [];
   Node 7 (field "hunter2") [];
   Node 8 input []].

Definition upload_fields : document :=
  [Node 10 file_input [];
   Node 11 (plain "SMALL" []) []].

(** <body>
      <div class="alert">..</div>
      <nav class="sidebar"></nav>
      <a class="btn btn-danger" href="/items/3/delete">
      <a class="btn btn-danger" href="/items/3/archive">
      <form> <input required value="bob"> <input required value="hunter2">
             <input> </form>
      <form> <input type="file"> <small> </form>
    </body> *)
Definition body : document :=
  [Node 0 (plain "BODY" [])
     [Node 1 (plain "DIV" ["alert"]) [];
      Node 2 (plain "NAV" ["sidebar"]) [];
      Node 3 (link ["btn"; "btn-danger"] "/items/3/delete") [];
      Node 4 (link ["btn"; "btn-danger"] "/items/3/archive") [];
      Node 5 (plain "FORM" []) login_fields;
      Node 9 (plain "FORM" []) upload_fields]].

Definition page0 : page := loaded Classic body 0.

(** <form> <input required value=" "> </form>: the user typed one space. *)
Definition space_field : document := [Node 1 (field " ") []].

Definition space_form : document := [Node 0 (plain "FORM" []) space_field].



(** <a class="btn-danger" href="/items/3/delete">
      <button class="btn-danger">x</button>
    </a> *)
Definition button_in_delete_link : document :=
  [Node 0 (link ["btn-danger"] "/items/3/delete")
     [Node 1 (plain "BUTTON" ["btn-danger"]) []]].


(** <body>
      <a href="/items/3/delete">delete</a>
      <div class="alert"> <p>saved</p> </div>
      <p>text</p>
    </body> *)
Definition page_with_plain_link : document :=
  [Node 0 (plain "BODY" [])
     [Node 1 (link [] "/items/3/delete") [];
      Node 2 (plain "DIV" ["alert"]) [Node 3 (plain "P" []) []];
      Node 4 (plain "P" []) []]].

End Sample.

(** ** Vocabulary of the statements *)

(** What [update i f] does to one entry of the flattened document. *)
Definition apply_at (i : nat) (f : element → element) (p : nat * element) : nat * element :=
  (p.1, if decide (p.1 = i) then f p.2 else p.2).

Definition value_of (x : nat) (d : document) : option jsstring :=
  from_option value None (get x d).

Definition href_of (x : nat) (d : document) : option jsstring :=
  from_option href None (get x d).

Definition files_of (x : nat) (d : document) : option (list jsstring) :=
  from_option files None (get x d).

(** The border colour the submit listener gives a field of value [v]. *)
Definition colour (v : jsstring) : string :=
  if JsString.blank v then "#ef4444" else "#e5e7eb".

Definition paint (d : document) (x : nat) : document :=
  match value_of x d with
  | Some v => update x (set_borderColor (colour v)) d
  | None => d
  end.

(** [form.querySelectorAll('[required]')] *)
Definition required_fields (form : nat) (d : document) : list nat :=
  select HasRequired (default [] (kids_of form d)).

(** The fields the loop of the submit listener gets through: those before
    the first one without a string value, where it throws. *)
Fixpoint reached (fields : list nat) (d : document) : list nat :=
  match fields with
  | [] => []
  | x :: rest =>
      match value_of x d with
      | Some _ => x :: reached rest d
      | None => []
      end
  end.

Definition complete (fields : list nat) (d : document) : bool :=
  forallb (λ x, bool_decide (is_Some (value_of x d))) fields.

Definition all_filled (fields : list nat) (d : document) : bool :=
  forallb (λ x, negb (from_option JsString.blank false (value_of x d))) fields.

(** The submit listener of [form] gets to its end and prevents the
    submission. *)
Definition blocks (form : nat) (d : document) : bool :=
  complete (required_fields form d) d && negb (all_filled (required_fields form d) d).


Fixpoint check_trace (fields : list nat) (d : document) : list access :=
  match fields with
  | [] => []
  | x :: rest =>
      Access x "value" Read ::
      match value_of x d with
      | Some _ => Access x "style.borderColor" Write :: check_trace rest d
      | None => []
      end
  end.

Definition file_change_trace (this : nat) (d : document) : list access :=
  Access this "files" Read ::
  match files_of this d with
  | Some _ =>
      Access this "nextElementSibling" Read ::
      match default None (sibling_in this d) with
      | Some l => [Access l "tagName" Read]
      | None => []
      end
  | None => []
  end.

(** The elements [init] finds, and what it registers for them. *)
Definition alerts_of (d : document) : list nat := select (ByClass "alert") d.

Definition danger_buttons (d : document) : list nat := select (ByClass "btn-danger") d.

Definition delete_buttons (d : document) : list nat :=
  filter (λ b, is_delete_link (href_of b d) = true) (danger_buttons d).

Definition forms_of (d : document) : list nat := select (ByTag "FORM") d.

Definition file_inputs (d : document) : list nat := select FileInput d.

Definition init_timers (now : N) (d : document) : list timer :=
  (λ a, Timer (now + 5000) (FadeOut a)) <$> alerts_of d.

Definition init_listeners (d : document) : list binding :=
  ((λ b, Binding b Click ConfirmDelete) <$> delete_buttons d)
  ++ ((λ f, Binding f Submit (ValidateForm f)) <$> forms_of d)
  ++ ((λ i, Binding i Change FileChange) <$> file_inputs d).

Definition init_trace (d : document) : list access :=
  (danger_buttons d ≫= λ b,
     Access b "href" Read ::
     if is_delete_link (href_of b d) then [Access b "addEventListener" Write] else [])
  ++ ((λ f, Access f "addEventListener" Write) <$> forms_of d)
  ++ ((λ i, Access i "addEventListener" Write) <$> file_inputs d).

Definition script_globals (k : script_kind) (g : gmap string jsvalue) : gmap string jsvalue :=
  <["AEGIS" := VObject {[ "toggleMobileMenu" := ToggleMobileMenu ]}]>
    (match k with
     | Classic => <["toggleMobileMenu" := VFunction ToggleMobileMenu]> g
     | Module => g
     end).

(** The elements on the path of an event on [target] that got a listener
    when the document [d0] became ready: the delete links that ask for
    confirmation, and the forms that validate. *)
Definition guards_on_path (d0 : document) (target : nat) (d : document) : list nat :=
  filter (λ b, b ∈ delete_buttons d0) (event_path target d).

Definition forms_on_path (d0 : document) (target : nat) (d : document) : list nat :=
  filter (λ g, g ∈ forms_of d0) (event_path target d).

Definition inputs_on_path (d0 : document) (target : nat) (d : document) : list nat :=
  filter (λ i, i ∈ file_inputs d0) (event_path target d).

(** The user declines one of the [n] confirmation dialogs that follow the
    first [from] ones. *)
Definition declined (user : nat → bool) (from n : nat) : bool :=
  existsb (λ i, negb (user i)) (seq from n).

(** The fields the submit listeners of the forms [forms] paint. *)
Definition painted (forms : list nat) (d : document) : list nat :=
  forms ≫= λ g, reached (required_fields g d) d.

(** The style a faded alert carries, and the timers of the two phases. *)
Definition fade (e : element) : element :=
  set_opacity "0" (set_transition "opacity 0.5s" e).

Definition fade_timers (T : N) (alerts : list nat) : list timer :=
  (λ a, Timer T (FadeOut a)) <$> alerts.

Definition removal_timers (T : N) (alerts : list nat) : list timer :=
  (λ a, Timer T (RemoveAlert a)) <$> alerts.

Definition fade_all (alerts : list nat) (d : document) : document :=
  foldl (λ d a, update a fade d) d alerts.

Definition remove_all (alerts : list nat) (d : document) : document :=
  foldl (λ d a, remove a d) d alerts.

(** The identities of the elements below the element [a]. *)
Definition below (a : nat) (d : document) : list nat := ids (default [] (kids_of a d)).

(** *** Callbacks and footprints *)

(** Whatever of main.js the browser or another script can run. *)
Inductive callback :=
  | OnReady                                              (* the DOMContentLoaded listener *)
  | OnTimer (j : task)
  | OnEvent (this : nat) (user : nat → bool) (l : listener)
  | Exported (f : func).

Definition run (cb : callback) : M unit :=
  match cb with
  | OnReady => init
  | OnTimer j => run_task j
  | OnEvent this user l => run_listener this user l
  | Exported f => call f
  end.

(** The callbacks that exist on a page whose document was [d0] when it got
    ready: [init] itself, what [init] registers for the elements it finds
    in [d0], what those callbacks register in turn, and the export. *)
Inductive registered (d0 : document) : callback → Prop :=
  | registered_ready : registered d0 OnReady
  | registered_fade a :
      a ∈ alerts_of d0 → registered d0 (OnTimer (FadeOut a))
  | registered_removal a :
      a ∈ alerts_of d0 → registered d0 (OnTimer (RemoveAlert a))
  | registered_click b user :
      b ∈ delete_buttons d0 → registered d0 (OnEvent b user ConfirmDelete)
  | registered_submit f user :
      f ∈ forms_of d0 → registered d0 (OnEvent f user (ValidateForm f))
  | registered_change i user :
      i ∈ file_inputs d0 → registered d0 (OnEvent i user FileChange)
  | registered_export : registered d0 (Exported ToggleMobileMenu).

(** The structure conventions the specification lists: the classes
    'alert', 'btn-danger' and 'sidebar', forms and the required fields in
    them, and file inputs. *)
Definition conventional (d : document) (i : nat) : bool :=
  bool_decide (i ∈ alerts_of d)
  || bool_decide (i ∈ danger_buttons d)
  || bool_decide (i ∈ select (ByClass "sidebar") d)
  || bool_decide (i ∈ forms_of d)
  || existsb (λ f, bool_decide (i ∈ required_fields f d)) (forms_of d)
  || bool_decide (i ∈ file_inputs d).

(** What the callback [cb] may read or write, element by element and
    property by property, when it runs on the document [d]. *)
Definition may_touch (cb : callback) (d : document) (acc : access) : Prop :=
  match cb with
  | OnReady =>
      (a_elem acc ∈ danger_buttons d ∧ a_prop acc = "href" ∧ a_kind acc = Read)
      ∨ ((a_elem acc ∈ delete_buttons d ∨ a_elem acc ∈ forms_of d
          ∨ a_elem acc ∈ file_inputs d)
         ∧ a_prop acc = "addEventListener" ∧ a_kind acc = Write)
  | OnTimer (FadeOut a) =>
      a_elem acc = a ∧ a_kind acc = Write
      ∧ a_prop acc ∈ ["style.transition"; "style.opacity"]
  | OnTimer (RemoveAlert a) => acc = Access a "remove" Write
  | OnEvent _ _ ConfirmDelete => False
  | OnEvent _ _ (ValidateForm form) =>
      acc = Access form "querySelectorAll" Read
      ∨ (a_elem acc ∈ required_fields form d
         ∧ ((a_prop acc = "value" ∧ a_kind acc = Read)
            ∨ (a_prop acc = "style.borderColor" ∧ a_kind acc = Write)))
  | OnEvent this _ FileChange =>
      (a_elem acc = this ∧ a_kind acc = Read
       ∧ a_prop acc ∈ ["files"; "nextElementSibling"])
      ∨ (a_kind acc = Read ∧ a_prop acc = "tagName"
         ∧ sibling_in this d = Some (Some (a_elem acc)))
  | Exported ToggleMobileMenu =>
      a_prop acc = "classList" ∧ a_kind acc = Write
      ∧ head (select (ByClass "sidebar") d) = Some (a_elem acc)
  end.

(** Every element of the document after the callback is as it was before
    it, unless the callback wrote to it. *)
Definition framed (p : page) (m : machine) : Prop :=
  ∀ x e, (x, e) ∈ flat (doc (pg m)) →
    (x, e) ∈ flat (doc p) ∨ ∃ acc, acc ∈ trace m ∧ a_elem acc = x ∧ a_kind acc = Write.

(** Every element of the document before the callback is still in it
    after, unless the callback removed it or an element above it. *)
Definition kept (p : page) (m : machine) : Prop :=
  ∀ x, x ∈ ids (doc p) →
    x ∈ ids (doc (pg m))
    ∨ ∃ a, Access a "remove" Write ∈ trace m ∧ (x = a ∨ x ∈ below a (doc p)).

(** *** Vocabulary of the further properties *)

(** One function applied to every element of the tree, by identity. *)
Fixpoint map_node (g : nat → element → element) (n : node) : node :=
  match n with Node j e ks => Node j (g j e) (map_node g <$> ks) end.

Definition map_doc (g : nat → element → element) (d : document) : document :=
  map_node g <$> d.

(** What the submit listeners that paint the fields [fields] do to the
    element [j], on the document [d]. *)
Definition repaint (fields : list nat) (d : document) (j : nat) (e : element) : element :=
  if decide (j ∈ fields) then
    match value_of j d with
    | Some v => set_borderColor (colour v) e
    | None => e
    end
  else e.

(** The page after the file was included twice before the document got
    ready. *)
Definition loaded_twice (k : script_kind) (d : document) (t0 : N) : page :=
  pg (DOMContentLoaded (pg (loadScript k (pg (loadScript k (fresh d t0)))))).

(** * Properties *)

(** ** Strings *)

Module JsStringFacts.
Import JsString.

Lemma starts_with_spec pat s :
  starts_with pat s = true ↔ ∃ post, s = pat ++ post.
Proof.
  revert s. induction pat as [|p pat IH]; intros s; simpl.
  - split; [intros _; by exists s | done].
  - destruct s as [|c s].
    + split; [done | by intros [post ?]].
    + rewrite andb_true_iff, N.eqb_eq, IH. split.
      * intros [-> [post ->]]. by exists post.
      * intros [post [= -> ->]]. split; [done | by exists post].
Qed.

(** [includes] finds exactly the substrings. *)
Lemma includes_spec s pat :
  includes s pat = true ↔ ∃ pre post, s = pre ++ pat ++ post.
Proof.
  induction s as [|c s IH]; simpl.
  - rewrite orb_false_r, starts_with_spec. split.
    + intros [post ->]. by exists [], post.
    + intros (pre & post & Heq). destruct pre; [by exists post|done].
  - rewrite orb_true_iff, starts_with_spec, IH. split.
    + intros [[post ->]|(pre & post & ->)].
      * by exists [], post.
      * by exists (c :: pre), post.
    + intros (pre & post & Heq). destruct pre as [|c' pre].
      * left. by exists post.
      * right. injection Heq as -> ->. by exists pre, post.
Qed.

Lemma includes_nonempty s pat :
  pat ≠ [] → includes s pat = true → truthy s = true.
Proof. destruct s, pat; done. Qed.





End JsStringFacts.

(** ** The element tree *)

(** Induction over forests: the empty forest, and a first tree put in
    front of a forest. *)
Lemma forest_ind (P : document → Prop) :
  P [] →
  (∀ i e ks d, P ks → P d → P (Node i e ks :: d)) →
  ∀ d, P d.
Proof.
  intros Hnil Hcons.
  assert (Hnode : ∀ n d, P d → P (n :: d)).
  { induction n as [i e ks IH] using node_ind. intros d Hd.
    apply Hcons; [|done]. induction IH; auto. }
  induction d; auto.
Qed.

Lemma flat_cons i e ks d : flat (Node i e ks :: d) = (i, e) :: flat ks ++ flat d.
Proof. reflexivity. Qed.

Lemma ids_cons i e ks d : ids (Node i e ks :: d) = i :: ids ks ++ ids d.
Proof. unfold ids. by rewrite flat_cons, fmap_cons, fmap_app. Qed.

Lemma update_cons i f j e ks d :
  update i f (Node j e ks :: d)
  = Node j (if decide (j = i) then f e else e) (update i f ks) :: update i f d.
Proof. reflexivity. Qed.

Lemma remove_cons i j e ks d :
  remove i (Node j e ks :: d)
  = if decide (j = i) then remove i d else Node j e (remove i ks) :: remove i d.
Proof. unfold remove; simpl. by destruct (decide (j = i)). Qed.

Lemma kids_of_cons i j e ks d :
  kids_of i (Node j e ks :: d)
  = if decide (j = i) then Some ks
    else match kids_of i ks with Some r => Some r | None => kids_of i d end.
Proof.
  simpl. destruct (decide (j = i)); [done|].
  assert (Heq : ∀ l, (fix go (l : document) : option document :=
      match l with
      | [] => None
      | k :: l' => match kids_of_node i k with Some r => Some r | None => go l' end
      end) l = kids_of i l).
  { induction l as [|k l IH]; simpl; [done|]. by rewrite IH. }
  by rewrite Heq.
Qed.

Lemma flat_update i f d : flat (update i f d) = apply_at i f <$> flat d.
Proof.
  induction d as [|j e ks d IHks IHd] using forest_ind; [done|].
  rewrite update_cons, !flat_cons, fmap_cons, fmap_app. by rewrite IHks, IHd.
Qed.

Lemma ids_update i f d : ids (update i f d) = ids d.
Proof.
  unfold ids. rewrite flat_update, <-list_fmap_compose. by apply list_fmap_ext.
Qed.

Lemma first_with_id_app i l1 l2 :
  first_with_id i (l1 ++ l2)
  = match first_with_id i l1 with Some r => Some r | None => first_with_id i l2 end.
Proof.
  induction l1 as [|[j e] l1 IH]; simpl; [done|]. by destruct (decide (j = i)).
Qed.

Lemma get_cons x i e ks d :
  get x (Node i e ks :: d)
  = if decide (i = x) then Some e
    else match get x ks with Some r => Some r | None => get x d end.
Proof. unfold get. rewrite flat_cons. simpl. by rewrite first_with_id_app. Qed.

Lemma get_None x d : get x d = None ↔ x ∉ ids d.
Proof.
  induction d as [|j e' ks d IHks IHd] using forest_ind.
  - split; [set_solver | done].
  - rewrite get_cons, ids_cons. destruct (decide (j = x)) as [->|].
    + split; [done | set_solver].
    + destruct (get x ks) eqn:Hk.
      * split; [done|]. intros Hn. assert (x ∉ ids ks) by set_solver.
        apply IHks in H. done.
      * rewrite IHd. assert (x ∉ ids ks) by by apply IHks. set_solver.
Qed.

Lemma elem_of_ids x d : x ∈ ids d ↔ ∃ e, (x, e) ∈ flat d.
Proof.
  unfold ids. rewrite list_elem_of_fmap. split.
  - intros [[y e] [-> H]]. by exists e.
  - intros [e H]. by exists (x, e).
Qed.

(** With distinct identities a reference denotes one element. *)
Lemma get_unique x e d : NoDup (ids d) → (x, e) ∈ flat d → get x d = Some e.
Proof.
  induction d as [|j e' ks d IHks IHd] using forest_ind; [set_solver|].
  rewrite ids_cons, get_cons, flat_cons. intros Hnd Hin.
  apply NoDup_cons in Hnd as [Hj Hnd]. apply NoDup_app in Hnd as (Hks & Hdis & Hd).
  destruct (decide (j = x)) as [->|Hne].
  - apply elem_of_cons in Hin as [[= ->]|Hin]; [done|].
    exfalso. apply Hj. apply elem_of_app in Hin as [Hin|Hin];
      apply elem_of_app; [left|right]; apply elem_of_ids; eauto.
  - apply elem_of_cons in Hin as [[= ? ?]|Hin]; [done|].
    apply elem_of_app in Hin as [Hin|Hin].
    + by rewrite (IHks Hks Hin).
    + assert (get x ks = None) as ->.
      { apply get_None. intros Hx. apply (Hdis x Hx). apply elem_of_ids; eauto. }
      auto.
Qed.

Lemma get_update x i f d :
  get x (update i f d) = (λ e, if decide (x = i) then f e else e) <$> get x d.
Proof.
  induction d as [|j e ks d IHks IHd] using forest_ind; [done|].
  rewrite update_cons, !get_cons, IHks, IHd.
  destruct (decide (j = x)) as [->|]; [done|].
  by destruct (get x ks), (get x d).
Qed.

Lemma update_id i f d : (∀ e, f e = e) → update i f d = d.
Proof.
  intros Hf. induction d as [|j e ks d IHks IHd] using forest_ind; [done|].
  rewrite update_cons, IHks, IHd, Hf. by destruct (decide (j = i)).
Qed.

Lemma update_update i f g d : update i f (update i g d) = update i (f ∘ g) d.
Proof.
  induction d as [|j e ks d IHks IHd] using forest_ind; [done|].
  rewrite !update_cons, IHks, IHd. by destruct (decide (j = i)).
Qed.


(** *** Selection *)

Lemma elem_of_select sel x d :
  x ∈ select sel d ↔ ∃ e, (x, e) ∈ flat d ∧ matches sel e = true.
Proof.
  unfold select. rewrite list_elem_of_fmap. split.
  - intros [[y e] [-> H]]. apply list_elem_of_filter in H as [? ?]. by exists e.
  - intros [e [? ?]]. exists (x, e). split; [done|]. by apply list_elem_of_filter.
Qed.

Lemma select_NoDup sel d : NoDup (ids d) → NoDup (select sel d).
Proof.
  unfold select, ids. generalize (flat d). intros l.
  induction l as [|[x e] l IH]; simpl; [constructor|].
  rewrite NoDup_cons. intros [Hx Hl]. rewrite filter_cons. case_decide; simpl.
  - apply NoDup_cons. split; [|auto]. intros Hin. apply Hx.
    apply list_elem_of_fmap in Hin as [q [-> Hq]].
    apply list_elem_of_filter in Hq as [_ Hq]. apply list_elem_of_fmap; eauto.
  - auto.
Qed.


(** *** Removal *)

Lemma flat_remove_subseteq i d : flat (remove i d) ⊆ flat d.
Proof.
  induction d as [|j e ks d IHks IHd] using forest_ind; [done|].
  rewrite remove_cons, flat_cons. destruct (decide (j = i)).
  - set_solver.
  - rewrite flat_cons. set_solver.
Qed.

Lemma ids_remove_subseteq i d : ids (remove i d) ⊆ ids d.
Proof.
  intros x [e He]%elem_of_ids. apply elem_of_ids. exists e.
  by apply (flat_remove_subseteq i).
Qed.

Lemma not_elem_of_ids_remove i d : i ∉ ids (remove i d).
Proof.
  induction d as [|j e ks d IHks IHd] using forest_ind; [set_solver|].
  rewrite remove_cons. destruct (decide (j = i)); [done|].
  rewrite ids_cons. set_solver.
Qed.

(** ** The callbacks, as functions of the machine *)

Ltac unfold_monad :=
  unfold read, write, touch, gets, on_page, preventDefault, alert, confirm,
    setTimeout, addEventListener, nextElementSibling, querySelectorAll,
    document_querySelectorAll, document_querySelector, throw,
    mbind, M_bind, mret, M_ret in *.

Lemma value_of_update y x f d :
  (∀ e, value (f e) = value e) → value_of y (update x f d) = value_of y d.
Proof.
  intros Hf. unfold value_of. rewrite get_update.
  destruct (get y d); simpl; [|done]. by destruct (decide (y = x)).
Qed.

Lemma value_of_paint y d x : value_of y (paint d x) = value_of y d.
Proof.
  unfold paint. destruct (value_of x d) eqn:Hx; [|done]. by apply value_of_update.
Qed.

Lemma all_filled_paint fields d x : all_filled fields (paint d x) = all_filled fields d.
Proof.
  unfold all_filled. induction fields as [|y l IH]; simpl; [done|].
  by rewrite value_of_paint, IH.
Qed.

Lemma complete_paint fields d x : complete fields (paint d x) = complete fields d.
Proof.
  unfold complete. induction fields as [|y l IH]; simpl; [done|].
  by rewrite value_of_paint, IH.
Qed.

Lemma reached_paint fields d x : reached fields (paint d x) = reached fields d.
Proof.
  induction fields as [|y l IH]; simpl; [done|].
  rewrite value_of_paint, IH. done.
Qed.

Lemma check_trace_paint fields d x : check_trace fields (paint d x) = check_trace fields d.
Proof.
  induction fields as [|y l IH]; simpl; [done|].
  rewrite value_of_paint, IH. done.
Qed.

Lemma check_field_spec x ok d c ts ls r ds g dp ak tr :
  check_field ok x (Machine (Page d c ts ls r ds g) dp ak tr)
  = match value_of x d with
    | Some v =>
        (Returned (if JsString.blank v then false else ok),
         Machine (Page (paint d x) c ts ls r ds g) dp ak
           (tr ++ [Access x "value" Read; Access x "style.borderColor" Write]))
    | None =>
        (Thrown, Machine (Page d c ts ls r ds g) dp ak (tr ++ [Access x "value" Read]))
    end.
Proof.
  unfold check_field, paint, colour, JsString.blank, value_of.
  unfold_monad. simpl.
  destruct (from_option value None (get x d)) as [v|]; [|done].
  destruct (negb _); simpl; by rewrite <-app_assoc.
Qed.

Lemma check_fields_spec fields ok d c ts ls r ds g dp ak tr :
  check_fields ok fields (Machine (Page d c ts ls r ds g) dp ak tr)
  = (if complete fields d then Returned (ok && all_filled fields d) else Thrown,
     Machine (Page (foldl paint d (reached fields d)) c ts ls r ds g) dp ak
       (tr ++ check_trace fields d)).
Proof.
  revert ok d tr. induction fields as [|x l IH]; intros ok d tr.
  - simpl. by rewrite andb_true_r, app_nil_r.
  - change (check_fields ok (x :: l)) with
      (ok' ← check_field ok x; check_fields ok' l).
    unfold mbind, M_bind. rewrite check_field_spec.
    cbn [complete all_filled reached check_trace forallb foldl].
    destruct (value_of x d) as [v|] eqn:Hx.
    + rewrite IH.
      rewrite all_filled_paint, complete_paint, reached_paint, check_trace_paint.
      rewrite <-app_assoc. cbn [from_option].
      rewrite bool_decide_true by done. cbn [andb app].
      fold (complete l d). fold (all_filled l d).
      destruct (complete l d); [|done].
      by destruct (JsString.blank v), ok.
    + rewrite bool_decide_false by (by intros [? ?]). done.
Qed.

Local Arguments select : simpl never.
Local Arguments get : simpl never.
Local Arguments update : simpl never.
Local Arguments remove : simpl never.
Local Arguments kids_of : simpl never.
Local Arguments sibling_in : simpl never.
Local Arguments ancestors : simpl never.
Local Arguments flat : simpl never.
Local Arguments JsString.lit : simpl never.
Local Arguments JsString.includes : simpl never.
Local Arguments JsString.trim : simpl never.

Lemma validate_form_spec f d c ts ls r ds g dp ak tr :
  validate_form f (Machine (Page d c ts ls r ds g) dp ak tr)
  = (if complete (required_fields f d) d then Returned tt else Thrown,
     Machine
       (Page (foldl paint d (reached (required_fields f d) d)) c ts ls r
          (if blocks f d then ds ++ [AlertBox "Please fill in all required fields."]
           else ds) g)
       (if blocks f d then true else dp) ak
       (tr ++ Access f "querySelectorAll" Read :: check_trace (required_fields f d) d)).
Proof.
  unfold validate_form, querySelectorAll, touch, gets, blocks.
  unfold mbind at 1 2 3, M_bind. simpl. fold (required_fields f d).
  rewrite check_fields_spec. rewrite <-app_assoc. simpl.
  destruct (complete (required_fields f d) d); [|done]. simpl.
  by destruct (all_filled (required_fields f d) d).
Qed.

Lemma confirm_delete_spec user p dp ak tr :
  confirm_delete user (Machine p dp ak tr)
  = (Returned tt,
     Machine
       (set_dialogs (λ ds, ds ++ [ConfirmBox "Are you sure you want to delete this item?"]) p)
       (if user ak then dp else true) (S ak) tr).
Proof.
  unfold confirm_delete. unfold_monad. simpl. by destruct (user ak).
Qed.

Lemma file_change_spec this p dp ak tr :
  file_change this (Machine p dp ak tr)
  = (match files_of this (doc p) with Some _ => Returned tt | None => Thrown end,
     Machine p dp ak (tr ++ file_change_trace this (doc p))).
Proof.
  unfold file_change, file_change_trace, files_of. unfold_monad. simpl.
  destruct (from_option files None (get this (doc p))) as [fs|]; [|done].
  simpl. rewrite <-!app_assoc. simpl.
  destruct (default None (sibling_in this (doc p))) as [l|]; simpl; [|done].
  rewrite <-!app_assoc. simpl.
  by destruct (decide (from_option tagName "" (get l (doc p)) = "SMALL")).
Qed.

Lemma toggleMobileMenu_spec d c ts ls r ds g dp ak tr :
  toggleMobileMenu (Machine (Page d c ts ls r ds g) dp ak tr)
  = (Returned tt,
     match head (select (ByClass "sidebar") d) with
     | Some sb =>
         Machine (Page (update sb (toggle_class "mobile-open") d) c ts ls r ds g) dp ak
           (tr ++ [Access sb "classList" Write])
     | None => Machine (Page d c ts ls r ds g) dp ak tr
     end).
Proof.
  unfold toggleMobileMenu. unfold_monad. simpl.
  by destruct (head (select (ByClass "sidebar") d)).
Qed.

Lemma run_task_FadeOut a d c ts ls r ds g dp ak tr :
  run_task (FadeOut a) (Machine (Page d c ts ls r ds g) dp ak tr)
  = (Returned tt,
     Machine
       (Page (update a (set_opacity "0" ∘ set_transition "opacity 0.5s") d) c
          (ts ++ [Timer (c + 500) (RemoveAlert a)]) ls r ds g)
       dp ak
       (tr ++ [Access a "style.transition" Write; Access a "style.opacity" Write])).
Proof.
  unfold run_task. unfold_monad. unfold set_doc, set_timers. simpl.
  by rewrite update_update, <-app_assoc.
Qed.

Lemma run_task_RemoveAlert a d c ts ls r ds g dp ak tr :
  run_task (RemoveAlert a) (Machine (Page d c ts ls r ds g) dp ak tr)
  = (Returned tt,
     Machine (Page (remove a d) c ts ls r ds g) dp ak (tr ++ [Access a "remove" Write])).
Proof. reflexivity. Qed.

(** *** The DOMContentLoaded callback *)

Lemma forEach_cons {A} (x : A) l (body : A → M unit) m :
  (body x m).1 = Returned tt → forEach (x :: l) body m = forEach l body (body x m).2.
Proof. simpl. unfold mbind, M_bind. destruct (body x m) as [[[]|] m']; by simpl. Qed.

Lemma forEach_setTimeout l d c ts ls r ds g dp ak tr :
  forEach l (λ alert, setTimeout (FadeOut alert) 5000)
    (Machine (Page d c ts ls r ds g) dp ak tr)
  = (Returned tt,
     Machine (Page d c (ts ++ ((λ a, Timer (c + 5000) (FadeOut a)) <$> l)) ls r ds g) dp ak tr).
Proof.
  revert ts. induction l as [|a l IH]; intros ts.
  - simpl. by rewrite app_nil_r.
  - rewrite forEach_cons by done. unfold setTimeout at 2, on_page, set_timers. simpl.
    rewrite IH. by rewrite <-app_assoc.
Qed.

Lemma forEach_delete_buttons l d c ts ls r ds g dp ak tr :
  forEach l (λ button,
      h ← read "href" href None button;
      if is_delete_link h then addEventListener button Click ConfirmDelete
      else mret tt)
    (Machine (Page d c ts ls r ds g) dp ak tr)
  = (Returned tt,
     Machine
       (Page d c ts
          (ls ++ ((λ b, Binding b Click ConfirmDelete)
                    <$> filter (λ b, is_delete_link (href_of b d) = true) l))
          r ds g)
       dp ak
       (tr ++ (l ≫= λ b,
                 Access b "href" Read ::
                 if is_delete_link (href_of b d) then [Access b "addEventListener" Write]
                 else []))).
Proof.
  revert ls tr. induction l as [|b l IH]; intros ls tr.
  - simpl. by rewrite !app_nil_r.
  - rewrite forEach_cons, filter_cons, bind_cons.
    + unfold read at 2, addEventListener at 2, touch, gets, on_page, set_listeners.
      unfold mbind at 2 3 4, M_bind, mret, M_ret. simpl. fold (href_of b d).
      destruct (is_delete_link (href_of b d)) eqn:Hb; simpl.
      * rewrite IH. simpl. by rewrite <-!app_assoc.
      * rewrite IH. by rewrite <-!app_assoc.
    + unfold read, addEventListener, touch, gets, on_page, set_listeners.
      unfold mbind, M_bind, mret, M_ret. simpl.
      by destruct (is_delete_link _).
Qed.

Lemma forEach_addEventListener l ty h d c ts ls r ds g dp ak tr :
  forEach l (λ x, addEventListener x ty (h x)) (Machine (Page d c ts ls r ds g) dp ak tr)
  = (Returned tt,
     Machine (Page d c ts (ls ++ ((λ x, Binding x ty (h x)) <$> l)) r ds g) dp ak
       (tr ++ ((λ x, Access x "addEventListener" Write) <$> l))).
Proof.
  revert ls tr. induction l as [|x l IH]; intros ls tr.
  - simpl. by rewrite !app_nil_r.
  - rewrite forEach_cons by done.
    change ((addEventListener x ty (h x) (Machine (Page d c ts ls r ds g) dp ak tr)).2)
      with (Machine (Page d c ts (ls ++ [Binding x ty (h x)]) r ds g) dp ak
              (tr ++ [Access x "addEventListener" Write])).
    rewrite IH. simpl. by rewrite <-!app_assoc.
Qed.

Lemma init_spec d c ts ls r ds g dp ak tr :
  init (Machine (Page d c ts ls r ds g) dp ak tr)
  = (Returned tt,
     Machine (Page d c (ts ++ init_timers c d) (ls ++ init_listeners d) r ds g) dp ak
       (tr ++ init_trace d)).
Proof.
  unfold init, document_querySelectorAll, gets.
  unfold mbind at 1 2 3 4 5 6 7, M_bind. simpl.
  rewrite forEach_setTimeout, forEach_delete_buttons.
  rewrite (forEach_addEventListener _ Submit ValidateForm).
  rewrite (forEach_addEventListener _ Change (λ _, FileChange)).
  unfold init_timers, init_listeners, init_trace, alerts_of, delete_buttons,
    danger_buttons, forms_of, file_inputs.
  by rewrite <-!app_assoc.
Qed.

Lemma loadScript_spec k d c ts ls r ds g :
  loadScript k (Page d c ts ls r ds g)
  = Machine (Page d c ts ls (S r) ds (script_globals k g)) false 0 [].
Proof. by destruct k. Qed.

Lemma loaded_spec k d t0 :
  loaded k d t0 = Page d t0 (init_timers t0 d) (init_listeners d) 1 [] (script_globals k ∅).
Proof.
  unfold loaded, fresh. rewrite loadScript_spec. unfold DOMContentLoaded, exec. simpl.
  unfold mbind, M_bind, attempt. by rewrite init_spec.
Qed.
(** ** Which listeners an element carries after loading *)

Lemma listeners_of_app i ty l1 l2 :
  listeners_of i ty (l1 ++ l2) = listeners_of i ty l1 ++ listeners_of i ty l2.
Proof. unfold listeners_of. by rewrite filter_app, fmap_app. Qed.

Lemma listeners_of_bindings i ty ty' (h : nat → listener) l :
  listeners_of i ty ((λ x, Binding x ty' (h x)) <$> l)
  = if decide (ty' = ty) then h <$> filter (λ x, x = i) l else [].
Proof.
  unfold listeners_of. induction l as [|x l IH].
  - by destruct (decide (ty' = ty)).
  - rewrite fmap_cons, !filter_cons.
    destruct (decide (b_target (Binding x ty' (h x)) = i
                      ∧ b_type (Binding x ty' (h x)) = ty)) as [[H1 H2]|Hn];
      cbn [b_target b_type] in *.
    + subst. rewrite fmap_cons, IH. rewrite !decide_True by done. done.
    + rewrite IH. destruct (decide (ty' = ty)); [|done].
      rewrite decide_False; [done|]. intros ->. by apply Hn.
Qed.

Lemma filter_eq_NoDup (i : nat) l :
  NoDup l → filter (λ x, x = i) l = if decide (i ∈ l) then [i] else [].
Proof.
  induction l as [|x l IH]; intros Hnd; [done|].
  apply NoDup_cons in Hnd as [Hx Hnd]. rewrite filter_cons, (IH Hnd).
  destruct (decide (x = i)) as [->|Hne].
  - rewrite decide_False by done. rewrite decide_True by set_solver. done.
  - destruct (decide (i ∈ l)).
    + rewrite decide_True by set_solver. done.
    + rewrite decide_False by set_solver. done.
Qed.

Lemma delete_buttons_NoDup d : NoDup (ids d) → NoDup (delete_buttons d).
Proof. intros H. apply NoDup_filter. by apply select_NoDup. Qed.

Lemma click_listeners_loaded i d :
  NoDup (ids d) →
  listeners_of i Click (init_listeners d)
  = if decide (i ∈ delete_buttons d) then [ConfirmDelete] else [].
Proof.
  intros Hnd. unfold init_listeners. rewrite !listeners_of_app.
  rewrite (listeners_of_bindings _ _ Click (λ _, ConfirmDelete)).
  rewrite (listeners_of_bindings _ _ Submit ValidateForm).
  rewrite (listeners_of_bindings _ _ Change (λ _, FileChange)). simpl.
  rewrite filter_eq_NoDup by by apply delete_buttons_NoDup.
  rewrite app_nil_r. by destruct (decide (i ∈ delete_buttons d)).
Qed.

Lemma submit_listeners_loaded i d :
  NoDup (ids d) →
  listeners_of i Submit (init_listeners d)
  = if decide (i ∈ forms_of d) then [ValidateForm i] else [].
Proof.
  intros Hnd. unfold init_listeners. rewrite !listeners_of_app.
  rewrite (listeners_of_bindings _ _ Click (λ _, ConfirmDelete)).
  rewrite (listeners_of_bindings _ _ Submit ValidateForm).
  rewrite (listeners_of_bindings _ _ Change (λ _, FileChange)). simpl.
  rewrite filter_eq_NoDup by by apply select_NoDup.
  rewrite app_nil_r. by destruct (decide (i ∈ forms_of d)).
Qed.

Lemma change_listeners_loaded i d :
  NoDup (ids d) →
  listeners_of i Change (init_listeners d)
  = if decide (i ∈ file_inputs d) then [FileChange] else [].
Proof.
  intros Hnd. unfold init_listeners. rewrite !listeners_of_app.
  rewrite (listeners_of_bindings _ _ Click (λ _, ConfirmDelete)).
  rewrite (listeners_of_bindings _ _ Submit ValidateForm).
  rewrite (listeners_of_bindings _ _ Change (λ _, FileChange)). simpl.
  rewrite filter_eq_NoDup by by apply select_NoDup.
  by destruct (decide (i ∈ file_inputs d)).
Qed.

(** *** The path of an event *)

Lemma ancestors_cons i j e ks d :
  ancestors i (Node j e ks :: d)
  = if decide (j = i) then Some []
    else match ancestors i ks with
         | Some up => Some (up ++ [j])
         | None => ancestors i d
         end.
Proof.
  unfold ancestors at 1. fold ancestors. simpl. destruct (decide (j = i)); [done|].
  assert (Heq : ∀ l, (fix go (l : list node) : option (list nat) :=
      match l with
      | [] => None
      | k :: l' =>
          match ancestors_in_node i k with
          | Some up => Some (up ++ [j])
          | None => go l'
          end
      end) l = (λ up, up ++ [j]) <$> ancestors i l).
  { induction l as [|k l IH]; [done|].
    unfold ancestors. fold ancestors. rewrite IH.
    by destruct (ancestors_in_node i k). }
  rewrite Heq. by destruct (ancestors i ks).
Qed.

Lemma listeners_on_path_cons ty x path ls :
  listeners_on_path ty (x :: path) ls
  = ((λ l, (x, l)) <$> listeners_of x ty ls) ++ listeners_on_path ty path ls.
Proof. reflexivity. Qed.

Lemma click_path_loaded path d :
  NoDup (ids d) →
  listeners_on_path Click path (init_listeners d)
  = (λ b, (b, ConfirmDelete)) <$> filter (λ b, b ∈ delete_buttons d) path.
Proof.
  intros Hnd. induction path as [|x path IH]; [done|].
  rewrite listeners_on_path_cons, IH, click_listeners_loaded, filter_cons by done.
  by destruct (decide (x ∈ delete_buttons d)).
Qed.

Lemma submit_path_loaded path d :
  NoDup (ids d) →
  listeners_on_path Submit path (init_listeners d)
  = (λ f, (f, ValidateForm f)) <$> filter (λ f, f ∈ forms_of d) path.
Proof.
  intros Hnd. induction path as [|x path IH]; [done|].
  rewrite listeners_on_path_cons, IH, submit_listeners_loaded, filter_cons by done.
  by destruct (decide (x ∈ forms_of d)).
Qed.

Lemma change_path_loaded path d :
  NoDup (ids d) →
  listeners_on_path Change path (init_listeners d)
  = (λ i, (i, FileChange)) <$> filter (λ i, i ∈ file_inputs d) path.
Proof.
  intros Hnd. induction path as [|x path IH]; [done|].
  rewrite listeners_on_path_cons, IH, change_listeners_loaded, filter_cons by done.
  by destruct (decide (x ∈ file_inputs d)).
Qed.

Lemma forEach_attempt_cons {A} (x : A) l (body : A → M unit) m :
  forEach (x :: l) (λ y, attempt (body y)) m
  = forEach l (λ y, attempt (body y)) (body x m).2.
Proof. by rewrite forEach_cons. Qed.

Lemma map_doc_cons g j e ks d :
  map_doc g (Node j e ks :: d) = Node j (g j e) (map_doc g ks) :: map_doc g d.
Proof. reflexivity. Qed.

Lemma map_doc_ext g h d : (∀ j e, g j e = h j e) → map_doc g d = map_doc h d.
Proof.
  intros Hgh. induction d as [|j e ks d IHks IHd] using forest_ind; [done|].
  by rewrite !map_doc_cons, IHks, IHd, Hgh.
Qed.

Lemma map_doc_id g d : (∀ j e, g j e = e) → map_doc g d = d.
Proof.
  intros Hg. induction d as [|j e ks d IHks IHd] using forest_ind; [done|].
  by rewrite map_doc_cons, IHks, IHd, Hg.
Qed.

Lemma map_doc_map_doc g h d : map_doc g (map_doc h d) = map_doc (λ j e, g j (h j e)) d.
Proof.
  induction d as [|j e ks d IHks IHd] using forest_ind; [done|].
  by rewrite !map_doc_cons, IHks, IHd.
Qed.

Lemma update_map_doc i f d :
  update i f d = map_doc (λ j e, if decide (j = i) then f e else e) d.
Proof.
  induction d as [|j e ks d IHks IHd] using forest_ind; [done|].
  by rewrite update_cons, map_doc_cons, IHks, IHd.
Qed.

Lemma flat_map_doc g d : flat (map_doc g d) = (λ q, (q.1, g q.1 q.2)) <$> flat d.
Proof.
  induction d as [|j e ks d IHks IHd] using forest_ind; [done|].
  rewrite map_doc_cons, !flat_cons, fmap_cons, fmap_app. by rewrite IHks, IHd.
Qed.

Lemma ids_map_doc g d : ids (map_doc g d) = ids d.
Proof.
  unfold ids. rewrite flat_map_doc, <-list_fmap_compose. by apply list_fmap_ext.
Qed.

Lemma get_map_doc g x d : get x (map_doc g d) = g x <$> get x d.
Proof.
  induction d as [|j e ks d IHks IHd] using forest_ind; [done|].
  rewrite map_doc_cons, !get_cons, IHks, IHd.
  destruct (decide (j = x)) as [->|]; [done|].
  by destruct (get x ks), (get x d).
Qed.

Lemma kids_of_map_doc g x d : kids_of x (map_doc g d) = map_doc g <$> kids_of x d.
Proof.
  induction d as [|j e ks d IHks IHd] using forest_ind; [done|].
  rewrite map_doc_cons, !kids_of_cons, IHks, IHd.
  destruct (decide (j = x)); [done|]. by destruct (kids_of x ks).
Qed.

Lemma select_map_doc sel g d :
  (∀ j e, matches sel (g j e) = matches sel e) → select sel (map_doc g d) = select sel d.
Proof.
  intros Hg. unfold select. rewrite flat_map_doc.
  induction (flat d) as [|[x e] l IH]; [done|].
  rewrite fmap_cons, !filter_cons. cbn [fst snd].
  destruct (decide (matches sel (g x e) = true)) as [H1|H1];
    destruct (decide (matches sel e = true)) as [H2|H2].
  - rewrite !fmap_cons. f_equal. exact IH.
  - rewrite Hg in H1. done.
  - rewrite Hg in H1. done.
  - exact IH.
Qed.

Lemma value_of_map_doc g x d :
  (∀ j e, value (g j e) = value e) → value_of x (map_doc g d) = value_of x d.
Proof.
  intros Hg. unfold value_of. rewrite get_map_doc. by destruct (get x d); simpl.
Qed.

Lemma ancestors_map_doc g x d : ancestors x (map_doc g d) = ancestors x d.
Proof.
  induction d as [|j e ks d IHks IHd] using forest_ind; [done|].
  by rewrite map_doc_cons, !ancestors_cons, IHks, IHd.
Qed.

Lemma event_path_map_doc g x d : event_path x (map_doc g d) = event_path x d.
Proof. unfold event_path. by rewrite ancestors_map_doc. Qed.

(** What the submit listener computes depends on the document through
    the values of its elements only. *)
Lemma reached_ext l d d' :
  (∀ x, value_of x d' = value_of x d) → reached l d' = reached l d.
Proof. intros H. induction l as [|y l IH]; simpl; [done|]. by rewrite H, IH. Qed.

Lemma complete_ext l d d' :
  (∀ x, value_of x d' = value_of x d) → complete l d' = complete l d.
Proof.
  intros H. unfold complete. induction l as [|y l IH]; simpl; [done|]. by rewrite H, IH.
Qed.

Lemma all_filled_ext l d d' :
  (∀ x, value_of x d' = value_of x d) → all_filled l d' = all_filled l d.
Proof.
  intros H. unfold all_filled. induction l as [|y l IH]; simpl; [done|]. by rewrite H, IH.
Qed.

Lemma check_trace_ext l d d' :
  (∀ x, value_of x d' = value_of x d) → check_trace l d' = check_trace l d.
Proof. intros H. induction l as [|y l IH]; simpl; [done|]. by rewrite H, IH. Qed.

Lemma matches_repaint sel l d j e : matches sel (repaint l d j e) = matches sel e.
Proof.
  unfold repaint. destruct (decide (j ∈ l)); [|done].
  destruct (value_of j d); by destruct sel.
Qed.

Lemma value_repaint l d j e : value (repaint l d j e) = value e.
Proof. unfold repaint. destruct (decide (j ∈ l)); [|done]. by destruct (value_of j d). Qed.


Lemma required_fields_map_doc g f d :
  (∀ j e, matches HasRequired (g j e) = matches HasRequired e) →
  required_fields f (map_doc g d) = required_fields f d.
Proof.
  intros Hg. unfold required_fields. rewrite kids_of_map_doc.
  destruct (kids_of f d) as [ks|]; simpl; [|done]. by apply select_map_doc.
Qed.

Lemma blocks_map_doc g f d :
  (∀ j e, matches HasRequired (g j e) = matches HasRequired e) →
  (∀ j e, value (g j e) = value e) →
  blocks f (map_doc g d) = blocks f d.
Proof.
  intros Hr Hv. unfold blocks. rewrite required_fields_map_doc by done.
  pose proof (λ x, value_of_map_doc g x d Hv) as H.
  by rewrite (complete_ext _ _ _ H), (all_filled_ext _ _ _ H).
Qed.

Lemma painted_map_doc g forms d :
  (∀ j e, matches HasRequired (g j e) = matches HasRequired e) →
  (∀ j e, value (g j e) = value e) →
  painted forms (map_doc g d) = painted forms d.
Proof.
  intros Hr Hv. unfold painted. induction forms as [|f l IH]; [done|].
  rewrite !bind_cons, IH, required_fields_map_doc by done.
  by rewrite (reached_ext _ _ _ (λ x, value_of_map_doc g x d Hv)).
Qed.

Lemma elem_of_reached x l d : x ∈ reached l d → x ∈ l ∧ is_Some (value_of x d).
Proof.
  induction l as [|y l IH]; simpl; [by intros ?%elem_of_nil|].
  destruct (value_of y d) as [v|] eqn:Hy; [|by intros ?%elem_of_nil].
  intros [->|Hx]%elem_of_cons.
  - split; [left | by rewrite Hy].
  - destruct (IH Hx). split; [by right | done].
Qed.


(** The whole loop over the required fields is one pass over the tree. *)
Lemma foldl_paint_map_doc l d : foldl paint d l = map_doc (repaint l d) d.
Proof.
  revert d. induction l as [|y l IH]; intros d.
  - simpl. symmetry. apply map_doc_id. intros j e. unfold repaint.
    by rewrite decide_False by set_solver.
  - cbn [foldl]. rewrite IH.
    assert (Hp : paint d y
                 = map_doc (λ j e, if decide (j = y) then
                      match value_of y d with
                      | Some v => set_borderColor (colour v) e
                      | None => e
                      end else e) d).
    { unfold paint. destruct (value_of y d) as [v|]; [apply update_map_doc|].
      symmetry. apply map_doc_id. intros j e. by destruct (decide (j = y)). }
    rewrite Hp at 2. rewrite map_doc_map_doc.
    apply map_doc_ext. intros j e. unfold repaint.
    rewrite value_of_paint.
    destruct (decide (j = y)) as [->|Hne].
    + rewrite (decide_True (P := y ∈ y :: l)) by set_solver.
      destruct (decide (y ∈ l)); [|done]. by destruct (value_of y d).
    + destruct (decide (j ∈ l)).
      * by rewrite decide_True by set_solver.
      * by rewrite decide_False by set_solver.
Qed.

Lemma repaint_app l1 l2 d j e :
  repaint l2 (map_doc (repaint l1 d) d) j (repaint l1 d j e) = repaint (l1 ++ l2) d j e.
Proof.
  pose proof (value_of_map_doc (repaint l1 d) j d (value_repaint l1 d)) as Hv.
  unfold repaint at 1. rewrite Hv. unfold repaint.
  destruct (decide (j ∈ l1)), (decide (j ∈ l2)).
  - rewrite decide_True by set_solver. by destruct (value_of j d).
  - by rewrite decide_True by set_solver.
  - by rewrite decide_True by set_solver.
  - by rewrite decide_False by set_solver.
Qed.

(** ** Events on a loaded page, in closed form *)

Lemma run_guards (bs : list nat) user d c ts ls r ds g dp ak tr :
  (forEach ((λ b, (b, ConfirmDelete)) <$> bs)
     (λ cl, attempt (run_listener cl.1 user cl.2))
     (Machine (Page d c ts ls r ds g) dp ak tr)).2
  = Machine
      (Page d c ts ls r
         (ds ++ replicate (length bs)
                  (ConfirmBox "Are you sure you want to delete this item?")) g)
      (dp || declined user ak (length bs)) (ak + length bs) tr.
Proof.
  revert ds dp ak. induction bs as [|b bs IH]; intros ds dp ak.
  - simpl. unfold declined. simpl. by rewrite app_nil_r, orb_false_r, Nat.add_0_r.
  - rewrite fmap_cons, forEach_attempt_cons. cbn [fst snd run_listener].
    rewrite confirm_delete_spec. unfold set_dialogs.
    cbn [snd doc clock timers listeners ready_listeners dialogs globals].
    rewrite IH. unfold declined. cbn [length replicate seq existsb].
    rewrite <-app_assoc. cbn [app].
    replace (S ak + length bs) with (ak + S (length bs)) by lia.
    f_equal. destruct (user ak), dp; simpl; done.
Qed.

Lemma run_validators (gs : list nat) user d c ts ls r ds g dp ak tr :
  (forEach ((λ f, (f, ValidateForm f)) <$> gs)
     (λ cl, attempt (run_listener cl.1 user cl.2))
     (Machine (Page d c ts ls r ds g) dp ak tr)).2
  = Machine
      (Page (map_doc (repaint (painted gs d) d) d) c ts ls r
         (ds ++ ((λ _, AlertBox "Please fill in all required fields.")
                   <$> filter (λ f, blocks f d = true) gs)) g)
      (dp || existsb (λ f, blocks f d) gs) ak
      (tr ++ (gs ≫= λ f,
                Access f "querySelectorAll" Read :: check_trace (required_fields f d) d)).
Proof.
  revert d ds dp tr. induction gs as [|f gs IH]; intros d ds dp tr.
  - simpl. rewrite !app_nil_r, orb_false_r. do 2 f_equal.
    symmetry. apply map_doc_id. intros j e. unfold repaint.
    by rewrite decide_False by set_solver.
  - rewrite fmap_cons, forEach_attempt_cons. cbn [fst snd run_listener].
    rewrite validate_form_spec. cbn [snd].
    rewrite foldl_paint_map_doc. rewrite IH.
    set (l1 := reached (required_fields f d) d).
    assert (Hr : ∀ j e, matches HasRequired (repaint l1 d j e) = matches HasRequired e)
      by (intros; apply matches_repaint).
    pose proof (value_repaint l1 d) as Hv.
    pose proof (λ x, value_of_map_doc (repaint l1 d) x d Hv) as Hval.
    rewrite painted_map_doc by done.
    rewrite map_doc_map_doc.
    rewrite (map_doc_ext _ (repaint (l1 ++ painted gs d) d)) by (intros; apply repaint_app).
    assert (Hb : ∀ h, blocks h (map_doc (repaint l1 d) d) = blocks h d)
      by (intros; by apply blocks_map_doc).
    assert (Hf : filter (λ h, blocks h (map_doc (repaint l1 d) d) = true) gs
                 = filter (λ h, blocks h d = true) gs).
    { apply list_filter_iff. intros h. by rewrite Hb. }
    assert (He : existsb (λ h, blocks h (map_doc (repaint l1 d) d)) gs
                 = existsb (λ h, blocks h d) gs).
    { clear. induction gs as [|h gs IH]; simpl; [done|].
      rewrite IH. f_equal. apply blocks_map_doc; intros; [apply matches_repaint | apply value_repaint]. }
    rewrite Hf, He.
    assert (Ht : (gs ≫= λ h, Access h "querySelectorAll" Read
                    :: check_trace (required_fields h (map_doc (repaint l1 d) d))
                         (map_doc (repaint l1 d) d))
                 = (gs ≫= λ h, Access h "querySelectorAll" Read
                      :: check_trace (required_fields h d) d)).
    { clear -Hr Hval. induction gs as [|h gs IH]; [done|].
      rewrite !bind_cons, IH, required_fields_map_doc by done.
      by rewrite (check_trace_ext _ _ _ Hval). }
    rewrite Ht. rewrite bind_cons, filter_cons. cbn [existsb painted].
    unfold painted. rewrite bind_cons. fold (painted gs d). fold l1.
    destruct (blocks f d) eqn:Hbf.
    + rewrite decide_True by done. rewrite fmap_cons, <-!app_assoc. cbn [app].
      by rewrite orb_true_r.
    + rewrite decide_False by done. rewrite <-!app_assoc. cbn [app orb].
      done.
Qed.

Lemma run_file_changes (inputs : list nat) user p dp ak tr :
  (forEach ((λ i, (i, FileChange)) <$> inputs)
     (λ cl, attempt (run_listener cl.1 user cl.2)) (Machine p dp ak tr)).2
  = Machine p dp ak (tr ++ (inputs ≫= λ i, file_change_trace i (doc p))).
Proof.
  revert tr. induction inputs as [|i inputs IH]; intros tr.
  - simpl. by rewrite app_nil_r.
  - rewrite fmap_cons, forEach_attempt_cons. cbn [fst snd run_listener].
    rewrite file_change_spec. cbn [snd]. rewrite IH, bind_cons. by rewrite <-app_assoc.
Qed.

Lemma dispatch_click_loaded k d0 t0 d c ts r ds g b user :
  NoDup (ids d0) →
  let p := Page d c ts (listeners (loaded k d0 t0)) r ds g in
  let n := length (guards_on_path d0 b d) in
  dispatch Click b user p
  = Machine
      (Page d c ts (listeners (loaded k d0 t0)) r
         (ds ++ replicate n (ConfirmBox "Are you sure you want to delete this item?")) g)
      (declined user 0 n) n [].
Proof.
  intros Hnd p n. unfold dispatch, exec, p. cbn [doc listeners].
  rewrite loaded_spec. cbn [listeners]. rewrite click_path_loaded by done.
  fold (guards_on_path d0 b d). by rewrite run_guards.
Qed.

Lemma dispatch_submit_loaded k d0 t0 d c ts r ds g f user :
  NoDup (ids d0) →
  let p := Page d c ts (listeners (loaded k d0 t0)) r ds g in
  let gs := forms_on_path d0 f d in
  dispatch Submit f user p
  = Machine
      (Page (map_doc (repaint (painted gs d) d) d) c ts (listeners (loaded k d0 t0)) r
         (ds ++ ((λ _, AlertBox "Please fill in all required fields.")
                   <$> filter (λ f, blocks f d = true) gs)) g)
      (existsb (λ f, blocks f d) gs) 0
      (gs ≫= λ f,
         Access f "querySelectorAll" Read :: check_trace (required_fields f d) d).
Proof.
  intros Hnd p gs. unfold dispatch, exec, p. cbn [doc listeners].
  rewrite loaded_spec. cbn [listeners]. rewrite submit_path_loaded by done.
  fold (forms_on_path d0 f d). fold gs. by rewrite run_validators.
Qed.

Lemma dispatch_change_loaded k d0 t0 p i user :
  NoDup (ids d0) →
  listeners p = listeners (loaded k d0 t0) →
  dispatch Change i user p
  = Machine p false 0 (inputs_on_path d0 i (doc p) ≫= λ i, file_change_trace i (doc p)).
Proof.
  intros Hnd Hl. unfold dispatch, exec. rewrite Hl.
  rewrite loaded_spec. cbn [listeners]. rewrite change_path_loaded by done.
  fold (inputs_on_path d0 i (doc p)). by rewrite run_file_changes.
Qed.

(** ** What the timers leave alone *)

Lemma fade_all_map_doc l d :
  fade_all l d = map_doc (λ j e, if decide (j ∈ l) then fade e else e) d.
Proof.
  unfold fade_all. revert d. induction l as [|y l IH]; intros d.
  - simpl. symmetry. apply map_doc_id. intros j e. cbn beta.
    destruct (decide (j ∈ [])) as [Hin|]; [by apply not_elem_of_nil in Hin|done].
  - cbn [foldl]. rewrite IH, update_map_doc, map_doc_map_doc.
    apply map_doc_ext. intros j e. cbn beta.
    destruct (decide (j = y)) as [->|Hne].
    + rewrite (decide_True (P := y ∈ y :: l)) by set_solver.
      by destruct (decide (y ∈ l)).
    + destruct (decide (j ∈ l)).
      * by rewrite decide_True by set_solver.
      * by rewrite decide_False by set_solver.
Qed.

Lemma flat_fade_all x e l d :
  (x, e) ∈ flat (fade_all l d) →
  ∃ e0, (x, e0) ∈ flat d ∧ (e = e0 ∨ (x ∈ l ∧ e = fade e0)).
Proof.
  rewrite fade_all_map_doc, flat_map_doc.
  intros [[y e0] [Heq Hin]]%list_elem_of_fmap. cbn [fst snd] in Heq.
  injection Heq as -> ->. exists e0. split; [done|].
  destruct (decide (y ∈ l)); auto.
Qed.

Lemma flat_remove_all_subseteq l d : flat (remove_all l d) ⊆ flat d.
Proof.
  unfold remove_all. revert d. induction l as [|y l IH]; intros d; simpl; [done|].
  etrans; [apply IH | apply flat_remove_subseteq].
Qed.

Lemma kids_of_Some_ids a d r : kids_of a d = Some r → a ∈ ids d.
Proof.
  revert r. induction d as [|j e ks d IHks IHd] using forest_ind; intros r; [done|].
  rewrite kids_of_cons, ids_cons. destruct (decide (j = a)) as [->|]; [set_solver|].
  destruct (kids_of a ks) as [r'|].
  - intros _. specialize (IHks r' eq_refl). set_solver.
  - intros H. specialize (IHd r H). set_solver.
Qed.

Lemma kids_of_None a d : a ∉ ids d → kids_of a d = None.
Proof.
  intros Ha. destruct (kids_of a d) eqn:H; [|done].
  by apply kids_of_Some_ids in H.
Qed.

Lemma ids_remove_sublist a d : ids (remove a d) `sublist_of` ids d.
Proof.
  induction d as [|j e ks d IHks IHd] using forest_ind; [done|].
  rewrite remove_cons, ids_cons. destruct (decide (j = a)).
  - apply sublist_cons. etrans; [apply IHd|]. apply sublist_inserts_l. done.
  - rewrite ids_cons. apply sublist_skip. by apply sublist_app.
Qed.

Lemma remove_NoDup a d : NoDup (ids d) → NoDup (ids (remove a d)).
Proof. intros H. apply (sublist_NoDup _ _ H), ids_remove_sublist. Qed.

Lemma remove_all_NoDup l d : NoDup (ids d) → NoDup (ids (remove_all l d)).
Proof.
  unfold remove_all. revert d. induction l as [|y l IH]; intros d Hnd; [done|].
  simpl. by apply IH, remove_NoDup.
Qed.

(** Removing [a] keeps whatever is neither [a] nor below it. *)
Lemma ids_remove_keeps a x d :
  NoDup (ids d) → x ∈ ids d → x ≠ a → x ∉ below a d → x ∈ ids (remove a d).
Proof.
  unfold below.
  induction d as [|j e ks d IHks IHd] using forest_ind; [done|].
  rewrite ids_cons, kids_of_cons, remove_cons. intros Hnd Hx Hne Hb.
  apply NoDup_cons in Hnd as [Hj Hnd]. apply NoDup_app in Hnd as (Hks & Hdis & Hd).
  destruct (decide (j = a)) as [->|Hja].
  - simpl in Hb. apply IHd; [done| |done|].
    + set_solver.
    + rewrite kids_of_None by set_solver. set_solver.
  - rewrite ids_cons. apply elem_of_cons in Hx as [->|Hx]; [set_solver|].
    apply elem_of_cons. right. apply elem_of_app.
    apply elem_of_app in Hx as [Hx|Hx]; [left|right].
    + apply IHks; [done..|]. destruct (kids_of a ks); [done|set_solver].
    + apply IHd; [done..|]. destruct (kids_of a ks) as [r|] eqn:Hk; [|done].
      apply kids_of_Some_ids in Hk. rewrite kids_of_None; [set_solver|].
      intros Ha. by apply (Hdis a).
Qed.

Lemma kids_of_remove a b r d :
  NoDup (ids d) → kids_of b (remove a d) = Some r →
  ∃ r0, kids_of b d = Some r0 ∧ r = remove a r0.
Proof.
  induction d as [|j e ks d IHks IHd] using forest_ind; [done|].
  rewrite ids_cons, remove_cons, kids_of_cons. intros Hnd.
  apply NoDup_cons in Hnd as [Hj Hnd]. apply NoDup_app in Hnd as (Hks & Hdis & Hd).
  destruct (decide (j = a)) as [->|Hja].
  - intros H. destruct (IHd Hd H) as (r0 & Hr0 & ->). exists r0. split; [|done].
    pose proof (kids_of_Some_ids _ _ _ Hr0) as Hb.
    rewrite decide_False by set_solver.
    rewrite (kids_of_None b ks); [done|]. intros Hb'. by apply (Hdis b).
  - rewrite kids_of_cons. destruct (decide (j = b)) as [->|Hjb].
    + intros [= <-]. eauto.
    + destruct (kids_of b (remove a ks)) as [r'|] eqn:Hk.
      * intros [= <-]. destruct (IHks Hks eq_refl) as (r0 & Hr0 & ->).
        exists r0. by rewrite Hr0.
      * intros H. destruct (IHd Hd H) as (r0 & Hr0 & ->). exists r0. split; [|done].
        pose proof (kids_of_Some_ids _ _ _ Hr0) as Hb.
        rewrite (kids_of_None b ks); [done|]. intros Hb'. by apply (Hdis b).
Qed.

Lemma below_remove a b d : NoDup (ids d) → below b (remove a d) ⊆ below b d.
Proof.
  intros Hnd x. unfold below. destruct (kids_of b (remove a d)) as [r|] eqn:Hr.
  - destruct (kids_of_remove a b r d Hnd Hr) as (r0 & -> & ->). simpl.
    apply ids_remove_subseteq.
  - simpl. set_solver.
Qed.

Lemma ids_remove_all_keeps l x d :
  NoDup (ids d) → x ∈ ids d → x ∉ l → (∀ a, a ∈ l → x ∉ below a d) →
  x ∈ ids (remove_all l d).
Proof.
  unfold remove_all. revert d. induction l as [|y l IH]; intros d Hnd Hx Hl Hb; [done|].
  simpl. apply IH.
  - by apply remove_NoDup.
  - apply ids_remove_keeps; [done..|set_solver|]. apply Hb. set_solver.
  - set_solver.
  - intros a Ha Hin. apply (below_remove y a d Hnd) in Hin. apply (Hb a); set_solver.
Qed.

Lemma below_map_doc g a d : below a (map_doc g d) = below a d.
Proof.
  unfold below. rewrite kids_of_map_doc. destruct (kids_of a d); simpl; [|done].
  apply ids_map_doc.
Qed.

(** ** The submit listener *)









Lemma forms_on_path_head d0 f d :
  f ∈ forms_of d0 →
  forms_on_path d0 f d
  = f :: filter (λ g, g ∈ forms_of d0) (default [] (ancestors f d)).
Proof. intros Hf. unfold forms_on_path, event_path. by rewrite filter_cons, decide_True. Qed.





Lemma elem_of_painted x gs d :
  x ∈ painted gs d ↔ ∃ g, g ∈ gs ∧ x ∈ reached (required_fields g d) d.
Proof. unfold painted. rewrite list_elem_of_bind. naive_solver. Qed.




(** ** Delete buttons *)

Lemma elem_of_delete_buttons b e d :
  NoDup (ids d) → (b, e) ∈ flat d →
  b ∈ delete_buttons d
  ↔ "btn-danger" ∈ classList e
    ∧ ∃ u, href e = Some u ∧ ∃ pre post, u = pre ++ JsString.lit "delete" ++ post.
Proof.
  intros Hnd Hin. unfold delete_buttons, danger_buttons.
  rewrite list_elem_of_filter, elem_of_select. unfold href_of.
  rewrite (get_unique b e d) by done. cbn [from_option matches]. split.
  - intros [Hlink (e' & Hin' & Hm)].
    assert (e' = e) as ->.
    { apply (get_unique b e' d) in Hin'; [|done].
      apply (get_unique b e d) in Hin; [|done]. congruence. }
    split; [by apply bool_decide_eq_true in Hm|].
    unfold is_delete_link in Hlink. destruct (href e) as [u|]; [|done].
    apply andb_true_iff in Hlink as [_ Hinc]. exists u. split; [done|].
    by apply JsStringFacts.includes_spec.
  - intros [Hc (u & Hu & Hsub)]. split.
    + unfold is_delete_link. rewrite Hu.
      apply JsStringFacts.includes_spec in Hsub. rewrite Hsub, andb_true_r.
      by apply (JsStringFacts.includes_nonempty u (JsString.lit "delete")).
    + exists e. split; [done|]. by apply bool_decide_eq_true.
Qed.

Lemma declined_spec user from n :
  declined user from n = true ↔ ∃ i, (from ≤ i < from + n)%nat ∧ user i = false.
Proof.
  unfold declined. revert from. induction n as [|n IH]; intros from; simpl.
  - split; [done | intros (i & ? & _); lia].
  - rewrite orb_true_iff, negb_true_iff, IH. split.
    + intros [H|(i & Hi & H)]; [exists from | exists i]; split; try done; lia.
    + intros (i & Hi & H). destruct (decide (i = from)) as [->|]; [by left|].
      right. exists i. split; [lia | done].
Qed.

Lemma guards_on_path_cons d0 b d :
  guards_on_path d0 b d
  = (if decide (b ∈ delete_buttons d0) then [b] else [])
    ++ filter (λ a, a ∈ delete_buttons d0) (default [] (ancestors b d)).
Proof.
  unfold guards_on_path, event_path. rewrite filter_cons.
  by destruct (decide (b ∈ delete_buttons d0)).
Qed.

(** C3, as amended.  For an element with class 'btn-danger' whose href
    contains 'delete' and which is in the document when DOMContentLoaded
    fires, a click on it shows the confirmation dialog 'Are you sure you
    want to delete this item?' once for the element and once more for
    every such element around it.  The default action of the click is
    prevented, so that no navigation takes place, exactly when the user
    declines one of these dialogs; if the user confirms them all it is
    not prevented.  With no such element around it there is one dialog,
    and the click is prevented exactly when the user does not confirm. *)
Theorem delete_click_needs_confirmation k d0 t0 p b e u user :
  NoDup (ids d0) → (b, e) ∈ flat d0 → "btn-danger" ∈ classList e →
  href e = Some u → (∃ pre post, u = pre ++ JsString.lit "delete" ++ post) →
  listeners p = listeners (loaded k d0 t0) →
  let m := dispatch Click b user p in
  let ask := ConfirmBox "Are you sure you want to delete this item?" in
  let around := filter (λ a, a ∈ delete_buttons d0) (default [] (ancestors b (doc p))) in
  let n := S (length around) in
  dialogs (pg m) = dialogs p ++ replicate n ask
  ∧ (defaultPrevented m = true ↔ ∃ i, (i < n)%nat ∧ user i = false)
  ∧ default_action_runs m = negb (defaultPrevented m)
  ∧ (user 0 = false → defaultPrevented m = true)
  ∧ ((∀ i, user i = true) → defaultPrevented m = false)
  ∧ (around = [] →
     dialogs (pg m) = dialogs p ++ [ask]
     ∧ defaultPrevented m = negb (user 0)
     ∧ default_action_runs m = user 0).
Proof.
  intros Hnd Hin Hc Hu Hsub Hl m ask around n.
  assert (Hb : b ∈ delete_buttons d0).
  { apply (elem_of_delete_buttons b e d0); eauto. }
  assert (Hm : m = dispatch Click b user p) by done. clearbody m.
  destruct p as [d c ts ls r ds g]. cbn [listeners doc dialogs] in *. subst ls.
  rewrite (dispatch_click_loaded k d0 t0) in Hm by done.
  rewrite guards_on_path_cons, decide_True in Hm by done.
  cbn [app length] in Hm. fold around in Hm. fold n in Hm. subst m.
  unfold default_action_runs. cbn [defaultPrevented pg dialogs].
  assert (Hd : declined user 0 n = true ↔ ∃ i, (i < n)%nat ∧ user i = false).
  { rewrite declined_spec. split; intros (i & Hi & H); exists i; split; try done; lia. }
  split_and!; [done | done | done | | |].
  - intros H0. apply Hd. exists 0. split; [unfold n; lia | done].
  - intros Hall. destruct (declined user 0 n) eqn:Hdec; [|done].
    destruct (proj1 Hd eq_refl) as (i & _ & Hi). by rewrite Hall in Hi.
  - intros Ha. unfold n. rewrite Ha. cbn [length replicate].
    unfold declined. cbn [seq existsb]. rewrite orb_false_r, negb_involutive. done.
Qed.

Lemma delete_click_needs_confirmation_witness :
  let p := Sample.page0 in
  let m := dispatch Click 3 (λ _, false) p in
  dialogs (pg m) = dialogs p ++ [ConfirmBox "Are you sure you want to delete this item?"]
  ∧ defaultPrevented m = true
  ∧ default_action_runs m = false.
Proof.
  intros p m.
  destruct (delete_click_needs_confirmation Classic Sample.body 0 Sample.page0 3
              (Sample.link ["btn"; "btn-danger"] "/items/3/delete")
              (JsString.lit "/items/3/delete") (λ _, false))
    as (H1 & H2 & H3 & H4 & H5 & H6).
  - compute_done.
  - apply list_elem_of_lookup. by exists 3.
  - compute_done.
  - reflexivity.
  - exists (JsString.lit "/items/3/"), []. reflexivity.
  - reflexivity.
  - destruct (H6 eq_refl) as (Ha & Hb & Hc).
    exact (conj Ha (conj (H4 eq_refl) Hc)).
Defined.

(** C3 as stated fails: a delete link with class 'btn-danger' that is put
    into the document after DOMContentLoaded has no listener; a click on
    it shows no dialog and its default action is not prevented, although
    the user would decline. *)
Lemma late_delete_link_is_unguarded :
  let late := Node 12 (Sample.link ["btn"; "btn-danger"] "/items/12/delete") [] in
  let p := set_doc (appendChild 0 late) Sample.page0 in
  let m := dispatch Click 12 (λ _, false) p in
  12 ∈ delete_buttons (doc p)
  ∧ dialogs (pg m) = []
  ∧ defaultPrevented m = false
  ∧ default_action_runs m = true.
Proof. split_and!; [compute_done | reflexivity..]. Qed.

(** C7, as amended.  An element with class 'btn-danger' that has no href,
    or whose href does not contain 'delete', gets no click listener.  A
    click on it still reaches the listeners of the delete links around
    it: one confirmation dialog is shown for each of them, and the click
    is prevented exactly when the user declines one.  Where no such link
    is around the element, a click on it shows no dialog, its default
    action is not prevented and the page is left as it was. *)
Theorem other_danger_buttons_are_untouched k d0 t0 p b e user :
  NoDup (ids d0) → (b, e) ∈ flat d0 → "btn-danger" ∈ classList e →
  href e = None
  ∨ (∃ u, href e = Some u ∧ ¬ ∃ pre post, u = pre ++ JsString.lit "delete" ++ post) →
  listeners p = listeners (loaded k d0 t0) →
  let m := dispatch Click b user p in
  let ask := ConfirmBox "Are you sure you want to delete this item?" in
  let around := filter (λ a, a ∈ delete_buttons d0) (default [] (ancestors b (doc p))) in
  listeners_of b Click (listeners p) = []
  ∧ dialogs (pg m) = dialogs p ++ replicate (length around) ask
  ∧ (defaultPrevented m = true ↔ ∃ i, (i < length around)%nat ∧ user i = false)
  ∧ (around = [] →
     dialogs (pg m) = dialogs p
     ∧ defaultPrevented m = false
     ∧ default_action_runs m = true
     ∧ pg m = p).
Proof.
  intros Hnd Hin Hc Hno Hl m ask around.
  assert (Hb : b ∉ delete_buttons d0).
  { intros (_ & u & Hu & Hsub)%(elem_of_delete_buttons b e d0); [|done..].
    destruct Hno as [Hnone|(u' & Hu' & Hno)]; [congruence|].
    assert (u' = u) as -> by congruence. done. }
  assert (Hnone : listeners_of b Click (listeners p) = []).
  { rewrite Hl, loaded_spec. simpl. rewrite click_listeners_loaded by done.
    by rewrite decide_False. }
  assert (Hm : m = dispatch Click b user p) by done. clearbody m.
  destruct p as [d c ts ls r ds g]. cbn [listeners doc dialogs] in *. subst ls.
  rewrite (dispatch_click_loaded k d0 t0) in Hm by done.
  rewrite guards_on_path_cons, decide_False in Hm by done.
  cbn [app] in Hm. fold around in Hm. subst m.
  unfold default_action_runs. cbn [defaultPrevented pg dialogs].
  split_and!; [done | done | |].
  - rewrite declined_spec. split; intros (i & Hi & H); exists i; split; try done; lia.
  - intros ->. cbn [length replicate]. by rewrite app_nil_r.
Qed.

Lemma other_danger_buttons_are_untouched_witness :
  let p := Sample.page0 in
  let m := dispatch Click 4 (λ _, false) p in
  listeners_of 4 Click (listeners p) = []
  ∧ dialogs (pg m) = dialogs p
  ∧ defaultPrevented m = false
  ∧ default_action_runs m = true
  ∧ pg m = p.
Proof.
  intros p m.
  destruct (other_danger_buttons_are_untouched Classic Sample.body 0 Sample.page0 4
              (Sample.link ["btn"; "btn-danger"] "/items/3/archive") (λ _, false))
    as (H1 & H2 & H3 & H4).
  - compute_done.
  - apply list_elem_of_lookup. by exists 4.
  - compute_done.
  - right. exists (JsString.lit "/items/3/archive"). split; [reflexivity|].
    intros Hsub. apply JsStringFacts.includes_spec in Hsub. by vm_compute in Hsub.
  - reflexivity.
  - exact (conj H1 (H4 eq_refl)).
Defined.

(** C7 as stated fails: a <button class="btn-danger"> without href inside
    a delete link with class 'btn-danger' has no listener of its own, but
    a click on it bubbles to the link: the confirmation dialog is shown
    and, as the user declines, the default action is prevented. *)
Lemma button_inside_delete_link_is_guarded :
  let p := loaded Classic Sample.button_in_delete_link 0 in
  let m := dispatch Click 1 (λ _, false) p in
  1 ∈ danger_buttons (doc p)
  ∧ href_of 1 (doc p) = None
  ∧ listeners_of 1 Click (listeners p) = []
  ∧ dialogs (pg m) = [ConfirmBox "Are you sure you want to delete this item?"]
  ∧ defaultPrevented m = true.
Proof. split_and!; [compute_done | reflexivity..]. Qed.

(** ** File inputs *)

(** C8.  The change listener of a file input of the page leaves the page
    (the document, timers, listeners, dialogs and globals) exactly as it
    was and does not prevent the event's default action. *)
Theorem file_change_is_noop k d0 t0 p i user :
  NoDup (ids d0) → i ∈ file_inputs d0 →
  listeners p = listeners (loaded k d0 t0) →
  let m := dispatch Change i user p in
  listeners_of i Change (listeners p) = [FileChange]
  ∧ pg m = p
  ∧ defaultPrevented m = false.
Proof.
  intros Hnd Hi Hl m. subst m.
  assert (Hone : listeners_of i Change (listeners p) = [FileChange]).
  { rewrite Hl, loaded_spec. simpl. rewrite change_listeners_loaded by done.
    by rewrite decide_True. }
  by rewrite (dispatch_change_loaded k d0 t0).
Qed.

Lemma file_change_is_noop_witness :
  let m := dispatch Change 10 (λ _, false) Sample.page0 in
  listeners_of 10 Change (listeners Sample.page0) = [FileChange]
  ∧ pg m = Sample.page0
  ∧ defaultPrevented m = false.
Proof.
  apply (file_change_is_noop Classic Sample.body 0 Sample.page0 10 (λ _, false)).
  - compute_done.
  - compute_done.
  - reflexivity.
Defined.

(** ** Timers *)

Lemma next_timer_elem ts m rest : next_timer ts = Some (m, rest) → m ∈ ts.
Proof.
  revert m rest. induction ts as [|tm ts IH]; intros m rest; simpl; [done|].
  destruct (next_timer ts) as [[m' rest']|].
  - destruct (due m' <? due tm)%N; intros [= <- <-]; [|set_solver].
    specialize (IH m' rest' eq_refl). set_solver.
  - intros [= <- <-]. set_solver.
Qed.

Lemma next_timer_None ts : next_timer ts = None → ts = [].
Proof.
  destruct ts as [|tm ts]; simpl; [done|].
  destruct (next_timer ts) as [[m rest]|]; [|done]. by destruct (due m <? due tm)%N.
Qed.

(** A timer at the head of the queue with nothing due earlier behind it
    fires next. *)
Lemma next_timer_head tm ts :
  Forall (λ x, (due tm ≤ due x)%N) ts → next_timer (tm :: ts) = Some (tm, ts).
Proof.
  intros Hall. simpl. destruct (next_timer ts) as [[m rest]|] eqn:Hn.
  - apply next_timer_elem in Hn. rewrite Forall_forall in Hall.
    specialize (Hall m Hn). by rewrite (proj2 (N.ltb_ge _ _) Hall).
  - by rewrite (next_timer_None ts Hn).
Qed.

Lemma run_timers_idle n t p : timers p = [] → run_timers n t p = p.
Proof. intros H. destruct n; simpl; [done|]. by rewrite H. Qed.

Lemma run_timers_wait n t p tm rest :
  next_timer (timers p) = Some (tm, rest) → (t < due tm)%N → run_timers n t p = p.
Proof.
  intros H Hlt. destruct n; simpl; [done|]. rewrite H.
  by rewrite (proj2 (N.leb_gt _ _) Hlt).
Qed.

Lemma next_timer_min ts m rest x :
  next_timer ts = Some (m, rest) → x ∈ ts → (due m ≤ due x)%N.
Proof.
  revert m rest. induction ts as [|tm ts IH]; intros m rest; simpl; [done|].
  destruct (next_timer ts) as [[m' rest']|] eqn:Hn.
  - destruct (due m' <? due tm)%N eqn:Hlt; intros [= <- <-] Hx.
    + apply N.ltb_lt in Hlt. apply elem_of_cons in Hx as [->|Hx]; [lia|].
      by apply (IH m' rest').
    + apply N.ltb_ge in Hlt. apply elem_of_cons in Hx as [->|Hx]; [lia|].
      specialize (IH m' rest' eq_refl Hx). lia.
  - intros [= <- <-] Hx. apply next_timer_None in Hn. subst ts.
    apply list_elem_of_singleton in Hx as ->. lia.
Qed.

Lemma queue_weight_cons x l :
  queue_weight (x :: l) = task_weight (job x) + queue_weight l.
Proof. reflexivity. Qed.

Lemma queue_weight_app l1 l2 :
  queue_weight (l1 ++ l2) = queue_weight l1 + queue_weight l2.
Proof. unfold queue_weight. rewrite fmap_app. apply sum_list_with_app. Qed.

Lemma next_timer_weight ts m rest :
  next_timer ts = Some (m, rest) →
  queue_weight ts = task_weight (job m) + queue_weight rest.
Proof.
  revert m rest. induction ts as [|tm ts IH]; intros m rest; [done|].
  cbn [next_timer]. destruct (next_timer ts) as [[m' rest']|] eqn:Hn.
  - destruct (due m' <? due tm)%N; intros [= <- <-].
    + rewrite !queue_weight_cons, (IH m' rest' eq_refl). lia.
    + by rewrite queue_weight_cons.
  - intros [= <- <-]. by rewrite (next_timer_None ts Hn).
Qed.

(** The fuel [advance_to] gives to [run_timers] is enough on every page:
    afterwards no pending timer is due. *)
Lemma run_timers_settles n t p tm :
  (queue_weight (timers p) ≤ n)%nat →
  tm ∈ timers (run_timers n t p) → (t < due tm)%N.
Proof.
  revert p. induction n as [|n IH]; intros p Hw Hin.
  - simpl in Hin. destruct (timers p) as [|x l]; [by apply not_elem_of_nil in Hin|].
    rewrite queue_weight_cons in Hw. destruct (job x); simpl in Hw; lia.
  - simpl in Hin. destruct (next_timer (timers p)) as [[m rest]|] eqn:Hn.
    + destruct (due m <=? t)%N eqn:Hdue.
      * apply (IH (pg (fire_timer m rest p))); [|done].
        apply next_timer_weight in Hn. destruct p as [d c ts ls r ds g], m as [T [a|a]].
        -- unfold fire_timer, exec, set_clock, set_timers.
           cbn [job due doc clock timers listeners ready_listeners dialogs globals].
           rewrite run_task_FadeOut. cbn [snd pg timers] in *.
           rewrite queue_weight_app, queue_weight_cons. cbn [job task_weight] in *.
           change (queue_weight []) with 0. lia.
        -- unfold fire_timer, exec, set_clock, set_timers.
           cbn [job due doc clock timers listeners ready_listeners dialogs globals].
           rewrite run_task_RemoveAlert. cbn [snd pg timers job task_weight] in *. lia.
      * apply N.leb_gt in Hdue. pose proof (next_timer_min _ _ _ tm Hn Hin). lia.
    + apply next_timer_None in Hn. rewrite Hn in Hin. by apply not_elem_of_nil in Hin.
Qed.

Lemma advance_to_settles t p tm : tm ∈ timers (advance_to t p) → (t < due tm)%N.
Proof.
  unfold advance_to. destruct (run_timers _ t p) eqn:Hr. unfold set_clock. cbn [timers].
  intros Hin. apply (run_timers_settles (queue_weight (timers p)) t p); [done|].
  by rewrite Hr.
Qed.

Lemma fire_timer_FadeOut T a rest d c ls r ds g ts :
  (c ≤ T)%N →
  pg (fire_timer (Timer T (FadeOut a)) rest (Page d c ts ls r ds g))
  = Page (update a fade d) T (rest ++ [Timer (T + 500) (RemoveAlert a)]) ls r ds g.
Proof.
  intros Hc. unfold fire_timer, exec, set_clock, set_timers.
  cbn [job due doc clock timers listeners ready_listeners dialogs globals].
  rewrite run_task_FadeOut. cbn [snd pg]. unfold fade. by rewrite N.max_l.
Qed.

Lemma fire_timer_RemoveAlert T a rest d c ls r ds g ts :
  (c ≤ T)%N →
  pg (fire_timer (Timer T (RemoveAlert a)) rest (Page d c ts ls r ds g))
  = Page (remove a d) T rest ls r ds g.
Proof.
  intros Hc. unfold fire_timer, exec, set_clock, set_timers.
  cbn [job due doc clock timers listeners ready_listeners dialogs globals].
  rewrite run_task_RemoveAlert. cbn [snd pg]. by rewrite N.max_l.
Qed.

(** The fading phase: the pending [FadeOut] timers fire in turn, each
    leaving a [RemoveAlert] timer 500 ms later. *)
Lemma run_timers_fades n t T pending faded d c ls r ds g :
  (c ≤ T)%N → (T ≤ t)%N →
  run_timers (length pending + n) t
    (Page d c (fade_timers T pending ++ removal_timers (T + 500) faded) ls r ds g)
  = run_timers n t
      (Page (fade_all pending d) (match pending with [] => c | _ => T end)
         (removal_timers (T + 500) (faded ++ pending)) ls r ds g).
Proof.
  revert faded d c. induction pending as [|a l IH]; intros faded d c Hc Ht.
  - simpl. by rewrite app_nil_r.
  - change (length (a :: l) + n) with (S (length l + n)).
    cbn [run_timers timers]. unfold fade_timers at 1. rewrite fmap_cons.
    fold (fade_timers T l). rewrite <-app_comm_cons, next_timer_head.
    + cbn [due]. rewrite (proj2 (N.leb_le _ _) Ht).
      rewrite fire_timer_FadeOut by done. rewrite <-app_assoc.
      change (removal_timers (T + 500) faded ++ [Timer (T + 500) (RemoveAlert a)])
        with (removal_timers (T + 500) faded ++ removal_timers (T + 500) [a]).
      unfold removal_timers at 1 2. rewrite <-fmap_app. fold (removal_timers (T + 500) (faded ++ [a])).
      rewrite IH by lia. rewrite <-app_assoc. simpl. by destruct l.
    + apply Forall_app. split; apply Forall_fmap, Forall_true; intros x; simpl; lia.
Qed.

(** The removal phase. *)
Lemma run_timers_removals n t T pending d c ls r ds g :
  (c ≤ T)%N → (T ≤ t)%N →
  run_timers (length pending + n) t (Page d c (removal_timers T pending) ls r ds g)
  = run_timers n t
      (Page (remove_all pending d) (match pending with [] => c | _ => T end) [] ls r ds g).
Proof.
  revert d c. induction pending as [|a l IH]; intros d c Hc Ht; [done|].
  change (length (a :: l) + n) with (S (length l + n)).
  cbn [run_timers timers]. unfold removal_timers at 1. rewrite fmap_cons.
  fold (removal_timers T l). rewrite next_timer_head.
  - cbn [due]. rewrite (proj2 (N.leb_le _ _) Ht).
    rewrite fire_timer_RemoveAlert by done. rewrite IH by lia. simpl. by destruct l.
  - apply Forall_fmap, Forall_true; intros x; simpl; lia.
Qed.

Lemma queue_weight_fades T l : queue_weight (fade_timers T l) = length l + (length l + 0).
Proof.
  unfold queue_weight, fade_timers. induction l as [|a l IH]; [done|].
  rewrite !fmap_cons. change (sum_list (?x :: ?l)) with (x + sum_list l).
  rewrite IH. simpl. lia.
Qed.

(** Where a page with nothing but freshly registered [FadeOut] timers, all
    due at [T], stands at time [t]. *)
Lemma advance_to_schedule t T alerts d c ls r ds g :
  (c ≤ T)%N →
  advance_to t (Page d c (fade_timers T alerts) ls r ds g)
  = if (t <? T)%N then
      Page d (N.max t c) (fade_timers T alerts) ls r ds g
    else if (t <? T + 500)%N then
      Page (fade_all alerts d) (N.max t c) (removal_timers (T + 500) alerts) ls r ds g
    else
      Page (remove_all alerts (fade_all alerts d)) (N.max t c) [] ls r ds g.
Proof.
  intros Hc. unfold advance_to. cbn [timers]. rewrite queue_weight_fades.
  destruct (t <? T)%N eqn:H1; [|destruct (t <? T + 500)%N eqn:H2].
  - apply N.ltb_lt in H1. destruct alerts as [|a l].
    + by rewrite run_timers_idle.
    + rewrite (run_timers_wait _ _ _ (Timer T (FadeOut a)) (fade_timers T l)); [done| |done].
      apply next_timer_head. apply Forall_fmap, Forall_true; intros x; simpl; lia.
  - apply N.ltb_ge in H1. apply N.ltb_lt in H2.
    pose proof (run_timers_fades (length alerts + 0) t T alerts [] d c ls r ds g Hc H1) as H.
    rewrite app_nil_r in H. rewrite H. simpl.
    destruct alerts as [|a l].
    + rewrite run_timers_idle by done. done.
    + rewrite (run_timers_wait _ _ _ (Timer (T + 500) (RemoveAlert a))
                 (removal_timers (T + 500) l)); [|..].
      * unfold set_clock. simpl. f_equal. lia.
      * apply next_timer_head. apply Forall_fmap, Forall_true; intros x; simpl; lia.
      * done.
  - apply N.ltb_ge in H1. apply N.ltb_ge in H2.
    pose proof (run_timers_fades (length alerts + 0) t T alerts [] d c ls r ds g Hc H1) as H.
    rewrite app_nil_r in H. rewrite H. simpl.
    rewrite run_timers_removals; [|destruct alerts; lia|done].
    simpl. unfold set_clock. simpl. f_equal. destruct alerts; lia.
Qed.

Lemma get_fade_all x l d :
  get x (fade_all l d) = (λ e, if decide (x ∈ l) then fade e else e) <$> get x d.
Proof.
  unfold fade_all. revert d. induction l as [|y l IH]; intros d; simpl.
  - by destruct (get x d).
  - rewrite IH, get_update. destruct (get x d) as [e|]; simpl; [|done]. f_equal.
    destruct (decide (x = y)) as [->|Hne].
    + rewrite (decide_True (P := y ∈ y :: l)) by set_solver.
      by destruct (decide (y ∈ l)).
    + destruct (decide (x ∈ l)).
      * by rewrite decide_True by set_solver.
      * by rewrite decide_False by set_solver.
Qed.

Lemma ids_remove_all_subseteq l d : ids (remove_all l d) ⊆ ids d.
Proof.
  unfold remove_all. revert d. induction l as [|y l IH]; intros d; simpl; [done|].
  etrans; [apply IH | apply ids_remove_subseteq].
Qed.

Lemma not_elem_of_remove_all a l d : a ∈ l → a ∉ ids (remove_all l d).
Proof.
  unfold remove_all. revert d. induction l as [|y l IH]; intros d Hin; [set_solver|].
  simpl. apply elem_of_cons in Hin as [->|Hin]; [|by apply IH].
  intros H. apply (ids_remove_all_subseteq l) in H. by apply not_elem_of_ids_remove in H.
Qed.

(** C2, as amended.  For an alert that is in the document when
    DOMContentLoaded fires, the script registers one timer 5000 ms after
    that moment.  With timers firing exactly when due: before 5000 ms the
    document is as it was; from 5000 ms up to 5500 ms the alert is still in
    the document, with transition 'opacity 0.5s' and opacity '0' and
    otherwise as it was, and its removal is pending at 5500 ms; from
    5500 ms after DOMContentLoaded on the alert is out of the document
    and no timer is left. *)
Theorem alerts_fade_then_leave k d t0 a e :
  a ∈ alerts_of d → get a d = Some e →
  let p := loaded k d t0 in
  timers p = fade_timers (t0 + 5000) (alerts_of d)
  ∧ (∀ t, (t < t0 + 5000)%N → doc (advance_to t p) = d)
  ∧ (∀ t, (t0 + 5000 ≤ t)%N → (t < t0 + 5500)%N →
       ∃ e', get a (doc (advance_to t p)) = Some e'
         ∧ opacity (style e') = "0"
         ∧ transition (style e') = "opacity 0.5s"
         ∧ e' = Element (tagName e) (classList e) (required e) (type_attr e) (href e)
                  (value e) (files e) (Style (borderColor (style e)) "0" "opacity 0.5s")
         ∧ Timer (t0 + 5500) (RemoveAlert a) ∈ timers (advance_to t p))
  ∧ (∀ t, (t0 + 5500 ≤ t)%N →
       (a ∉ ids (doc (advance_to t p))) ∧ timers (advance_to t p) = []).
Proof.
  intros Ha He p. subst p. rewrite loaded_spec. cbn [timers].
  change (init_timers t0 d) with (fade_timers (t0 + 5000) (alerts_of d)).
  split; [done|]. split_and!; intros t.
  - intros Ht. rewrite advance_to_schedule by lia.
    by rewrite (proj2 (N.ltb_lt _ _) Ht).
  - intros H1 H2. rewrite advance_to_schedule by lia.
    rewrite (proj2 (N.ltb_ge _ _) H1).
    assert (t < t0 + 5000 + 500)%N as ->%N.ltb_lt by lia.
    cbn [doc timers]. rewrite get_fade_all, He. simpl.
    rewrite decide_True by done. exists (fade e). split_and!; [done..|].
    replace (t0 + 5500)%N with (t0 + 5000 + 500)%N by lia.
    unfold removal_timers. apply list_elem_of_fmap. by exists a.
  - intros H1. rewrite advance_to_schedule by lia.
    assert (t0 + 5000 ≤ t)%N as ->%N.ltb_ge by lia.
    assert (t0 + 5000 + 500 ≤ t)%N as ->%N.ltb_ge by lia.
    cbn [doc timers]. split; [|done]. by apply not_elem_of_remove_all.
Qed.

Lemma alerts_fade_then_leave_witness :
  let p := loaded Classic Sample.body 0 in
  let e := Sample.plain "DIV" ["alert"] in
  timers p = fade_timers (0 + 5000) (alerts_of Sample.body)
  ∧ (∀ t, (t < 0 + 5000)%N → doc (advance_to t p) = Sample.body)
  ∧ (∀ t, (0 + 5000 ≤ t)%N → (t < 0 + 5500)%N →
       ∃ e', get 1 (doc (advance_to t p)) = Some e'
         ∧ opacity (style e') = "0"
         ∧ transition (style e') = "opacity 0.5s"
         ∧ e' = Element (tagName e) (classList e) (required e) (type_attr e) (href e)
                  (value e) (files e) (Style (borderColor (style e)) "0" "opacity 0.5s")
         ∧ Timer (0 + 5500) (RemoveAlert 1) ∈ timers (advance_to t p))
  ∧ (∀ t, (0 + 5500 ≤ t)%N →
       (1 ∉ ids (doc (advance_to t p))) ∧ timers (advance_to t p) = []).
Proof.
  apply (alerts_fade_then_leave Classic Sample.body 0 1 (Sample.plain "DIV" ["alert"])).
  - compute_done.
  - reflexivity.
Defined.

(** C2 as stated fails: an alert inserted into the loaded page at 1000 ms
    is in no timer's reach; it is still in the document 5500 ms after its
    insertion and at any later time, with no timer left to remove it. *)
Lemma late_alert_is_never_removed :
  let late := Node 20 (Sample.plain "DIV" ["alert"]) [] in
  let p1 := advance_to 1000 (loaded Classic Sample.body 0) in
  let p2 := set_doc (appendChild 0 late) p1 in
  clock p2 = 1000%N
  ∧ (20 ∉ ids (doc p1))
  ∧ 20 ∈ alerts_of (doc p2)
  ∧ ∀ t, (1000 + 5500 ≤ t)%N →
      20 ∈ ids (doc (advance_to t p2)) ∧ timers (advance_to t p2) = [].
Proof.
  intros late p1 p2. split_and!; [reflexivity | compute_done | compute_done |].
  intros t Ht.
  assert (Hp2 : p2 = Page (doc p2) 1000 (fade_timers 5000 [1]) (listeners p2) 1 []
                       (globals p2)) by reflexivity.
  rewrite Hp2, advance_to_schedule by lia.
  assert (5000 ≤ t)%N as ->%N.ltb_ge by lia.
  assert (5000 + 500 ≤ t)%N as ->%N.ltb_ge by lia.
  cbn [doc timers]. split; [compute_done | done].
Qed.

(** ** The exported function *)













(** ** The global object *)

(** C5, as amended.  After the file has run, [window.AEGIS] is an object
    whose only member is the function [toggleMobileMenu], which other
    scripts can call through it; no global other than [AEGIS] and
    [toggleMobileMenu] is touched.  Included as a module, the file leaves
    the global [toggleMobileMenu] alone, so [AEGIS] is the one entry point;
    included as a classic script, its function declaration makes
    [toggleMobileMenu] a second global entry point. *)
Theorem script_exposes_AEGIS k p :
  let p' := pg (loadScript k p) in
  globals p' !! "AEGIS" = Some (VObject {[ "toggleMobileMenu" := ToggleMobileMenu ]})
  ∧ call_member "AEGIS" "toggleMobileMenu" p' = Some (exec toggleMobileMenu p')
  ∧ (∀ name, name ≠ "toggleMobileMenu" → call_member "AEGIS" name p' = None)
  ∧ (∀ x, x ≠ "AEGIS" → x ≠ "toggleMobileMenu" → globals p' !! x = globals p !! x)
  ∧ match k with
    | Module => globals p' !! "toggleMobileMenu" = globals p !! "toggleMobileMenu"
    | Classic =>
        globals p' !! "toggleMobileMenu" = Some (VFunction ToggleMobileMenu)
        ∧ call_global "toggleMobileMenu" p' = Some (exec toggleMobileMenu p')
    end.
Proof.
  destruct p as [d c ts ls r ds g]. rewrite loadScript_spec. cbn [pg].
  unfold call_member, call_global, script_globals. cbn [globals].
  rewrite lookup_insert_eq. split_and!.
  - done.
  - by rewrite lookup_singleton_eq.
  - intros name Hname. by rewrite lookup_singleton_ne.
  - intros x H1 H2. rewrite lookup_insert_ne by done.
    destruct k; [by rewrite lookup_insert_ne|done].
  - destruct k.
    + rewrite lookup_insert_ne by done. by rewrite lookup_insert_eq.
    + by rewrite lookup_insert_ne.
Qed.

Lemma script_exposes_AEGIS_witness :
  let p' := pg (loadScript Module (fresh Sample.body 0)) in
  call_member "AEGIS" "toggleMobileMenu" p' = Some (exec toggleMobileMenu p')
  ∧ call_member "AEGIS" "init" p' = None
  ∧ globals p' !! "document" = globals (fresh Sample.body 0) !! "document"
  ∧ globals p' !! "toggleMobileMenu" = globals (fresh Sample.body 0) !! "toggleMobileMenu".
Proof.
  pose proof (script_exposes_AEGIS Module (fresh Sample.body 0)) as (_ & H1 & H2 & H3 & H4).
  split_and!; [exact H1 | by apply H2 | by apply H3 | exact H4].
Defined.

(** C5 as stated fails: included as a classic script on a page without
    globals, the file leaves two global names, and [toggleMobileMenu] can
    be called without going through [AEGIS]. *)
Lemma classic_script_adds_two_globals :
  let p' := pg (loadScript Classic (fresh [] 0)) in
  dom (globals p') = {["AEGIS"; "toggleMobileMenu"]}
  ∧ call_global "toggleMobileMenu" p' = Some (exec toggleMobileMenu p')
  ∧ ¬ (∀ name, is_Some (globals p' !! name) ↔ name = "AEGIS").
Proof.
  split_and!; [compute_done | reflexivity |].
  intros H. specialize (H "toggleMobileMenu"). destruct H as [H _].
  by specialize (H (mk_is_Some _ _ eq_refl)).
Qed.


(** ** Footprints *)

Lemma flat_update_frame x e a f d :
  (x, e) ∈ flat (update a f d) → (x, e) ∈ flat d ∨ x = a.
Proof.
  rewrite flat_update. intros [[y e0] [Heq Hin]]%list_elem_of_fmap.
  unfold apply_at in Heq. simpl in Heq. injection Heq as -> ->.
  destruct (decide (y = a)); [by right | by left].
Qed.

Lemma flat_foldl_paint_frame x e l d :
  (x, e) ∈ flat (foldl paint d l) → (x, e) ∈ flat d ∨ x ∈ l.
Proof.
  revert d. induction l as [|y l IH]; intros d; simpl; [by left|].
  intros [Hin|Hin]%IH; [|right; set_solver].
  unfold paint in Hin. destruct (value_of y d); [|by left].
  apply flat_update_frame in Hin as [Hin| ->]; [by left | right; set_solver].
Qed.

Lemma elem_of_check_trace acc l d :
  acc ∈ check_trace l d →
  ∃ x, x ∈ l ∧ (acc = Access x "value" Read ∨ acc = Access x "style.borderColor" Write).
Proof.
  induction l as [|y l IH]; simpl; [by intros ?%elem_of_nil|].
  intros [->|Hacc]%elem_of_cons; [exists y; split; [left | by left]|].
  destruct (value_of y d); [|by apply elem_of_nil in Hacc].
  apply elem_of_cons in Hacc as [->|Hacc]; [exists y; split; [left | by right]|].
  destruct (IH Hacc) as (x & Hx & H). exists x. split; [by right | done].
Qed.

Lemma reached_is_written x l d :
  x ∈ reached l d → Access x "style.borderColor" Write ∈ check_trace l d.
Proof.
  induction l as [|y l IH]; simpl; [by intros ?%elem_of_nil|].
  destruct (value_of y d); [|by intros ?%elem_of_nil].
  intros [->|Hx]%elem_of_cons.
  - right. left.
  - right. right. by apply IH.
Qed.

Lemma elem_of_init_trace acc d :
  acc ∈ init_trace d →
  (acc = Access (a_elem acc) "href" Read ∧ a_elem acc ∈ danger_buttons d)
  ∨ (acc = Access (a_elem acc) "addEventListener" Write
     ∧ (a_elem acc ∈ delete_buttons d ∨ a_elem acc ∈ forms_of d
        ∨ a_elem acc ∈ file_inputs d)).
Proof.
  unfold init_trace. rewrite !elem_of_app, list_elem_of_bind, !list_elem_of_fmap.
  intros [(b & Hacc & Hb)|[(f & -> & Hf)|(i & -> & Hi)]].
  - apply elem_of_cons in Hacc as [->|Hacc]; [by left|].
    destruct (is_delete_link (href_of b d)) eqn:Hl; [|set_solver].
    apply list_elem_of_singleton in Hacc as ->. right. split; [done|]. left.
    unfold delete_buttons. by apply list_elem_of_filter.
  - right. simpl. auto.
  - right. simpl. auto.
Qed.

Lemma ids_foldl_paint l d : ids (foldl paint d l) = ids d.
Proof. by rewrite foldl_paint_map_doc, ids_map_doc. Qed.

(** C9, as amended.  On a page that got ready with document [d0], each
    callback of the script touches only what [may_touch] lists for it:
    the DOMContentLoaded callback reads the href of the 'btn-danger'
    elements and registers listeners on the delete links among them, on
    the forms and on the file inputs; the timers of an alert write its
    transition and opacity and remove it; the click listener touches no
    element; the submit listener of a form queries that form and reads
    the value and writes the border colour of required elements inside
    that form; the change listener of a file input reads its files and
    its next sibling and the tagName of the element that follows it,
    which need not belong to any of the conventions; toggleMobileMenu
    writes the class list of the first '.sidebar' element.  Every element
    that is in the document afterwards is as it was before unless the
    callback wrote to it, every element that was in the document before
    is still in it unless the callback removed it or an element above it,
    and the callbacks register nothing but callbacks of these kinds. *)
Theorem script_footprint d0 p cb :
  registered d0 cb → (cb = OnReady → doc p = d0) → NoDup (ids (doc p)) →
  let m := exec (run cb) p in
  (∀ acc, acc ∈ trace m → may_touch cb (doc p) acc)
  ∧ framed p m
  ∧ kept p m
  ∧ (∀ tm, tm ∈ timers (pg m) → tm ∈ timers p ∨ registered d0 (OnTimer (job tm)))
  ∧ (∀ b, b ∈ listeners (pg m) →
       b ∈ listeners p
       ∨ (cb = OnReady
          ∧ ∀ user, registered d0 (OnEvent (b_target b) user (b_listener b)))).
Proof.
  intros Hreg Hready Hnd. destruct p as [d c ts ls r ds g]. cbn zeta.
  unfold exec, framed, kept. cbn [doc] in Hnd.
  destruct Hreg as [|a Ha|a Ha|b user Hb|f user Hf|i user Hi|];
    cbn [run run_listener call may_touch].
  - (* init *)
    specialize (Hready eq_refl). simpl in Hready. subst d.
    rewrite init_spec. cbn [snd pg doc trace timers listeners]. split_and!.
    + intros acc Hacc. rewrite app_nil_l in Hacc.
      apply elem_of_init_trace in Hacc as [[Hacc Hin]|[Hacc Hin]]; rewrite Hacc;
        cbn [a_elem a_kind a_prop]; auto.
    + intros x e Hin. by left.
    + intros x Hx. by left.
    + intros tm [Hin|Hin]%elem_of_app; [by left|right].
      unfold init_timers in Hin. apply list_elem_of_fmap in Hin as (a & -> & Ha).
      by constructor.
    + intros b [Hin|Hin]%elem_of_app; [by left|right]. split; [done|]. intros user.
      unfold init_listeners in Hin. rewrite !elem_of_app, !list_elem_of_fmap in Hin.
      destruct Hin as [(x & -> & Hx)|[(x & -> & Hx)|(x & -> & Hx)]]; by constructor.
  - (* fading an alert *)
    rewrite run_task_FadeOut. cbn [snd pg doc trace timers listeners]. split_and!.
    + intros acc Hacc. rewrite app_nil_l in Hacc.
      apply elem_of_cons in Hacc as [->|Hacc]; [set_solver|].
      apply list_elem_of_singleton in Hacc as ->. set_solver.
    + intros x e [Hin| ->]%flat_update_frame; [by left|right].
      exists (Access a "style.opacity" Write). set_solver.
    + intros x Hx. left. by rewrite ids_update.
    + intros tm [Hin|Hin]%elem_of_app; [by left|right].
      apply list_elem_of_singleton in Hin as ->. by constructor.
    + intros b Hin. by left.
  - (* removing an alert *)
    rewrite run_task_RemoveAlert. cbn [snd pg doc trace timers listeners]. split_and!.
    + intros acc Hacc. rewrite app_nil_l in Hacc.
      by apply list_elem_of_singleton in Hacc as ->.
    + intros x e Hin. left. by apply (flat_remove_subseteq a).
    + intros x Hx. destruct (decide (x = a)) as [->|Hne].
      { right. exists a. split; [set_solver | by left]. }
      destruct (decide (x ∈ below a d)) as [Hb|Hb].
      { right. exists a. split; [set_solver | by right]. }
      left. by apply ids_remove_keeps.
    + intros tm Hin. by left.
    + intros b' Hin. by left.
  - (* click on a delete button *)
    rewrite confirm_delete_spec. cbn [snd pg doc trace timers listeners set_dialogs].
    split_and!.
    + intros acc Hacc. by apply not_elem_of_nil in Hacc.
    + intros x e Hin. by left.
    + intros x Hx. by left.
    + intros tm Hin. by left.
    + intros b' Hin. by left.
  - (* submit of a form *)
    rewrite validate_form_spec. cbn [snd pg doc trace timers listeners]. split_and!.
    + intros acc Hacc. rewrite app_nil_l in Hacc.
      apply elem_of_cons in Hacc as [->|Hacc]; [by left|].
      apply elem_of_check_trace in Hacc as (x & Hx & [->| ->]);
        cbn [a_elem a_kind a_prop]; right; auto.
    + intros x e [Hin|Hin]%flat_foldl_paint_frame; [by left|right].
      exists (Access x "style.borderColor" Write). split_and!; [|done..].
      rewrite app_nil_l. apply elem_of_cons. right.
      by apply reached_is_written.
    + intros x Hx. left. by rewrite ids_foldl_paint.
    + intros tm Hin. by left.
    + intros b' Hin. by left.
  - (* change of a file input *)
    rewrite file_change_spec. cbn [snd pg doc trace timers listeners]. split_and!.
    + intros acc Hacc. rewrite app_nil_l in Hacc. unfold file_change_trace in Hacc.
      apply elem_of_cons in Hacc as [->|Hacc]; [left; set_solver|].
      destruct (files_of i d) as [fs|]; [|by apply elem_of_nil in Hacc].
      apply elem_of_cons in Hacc as [->|Hacc]; [left; set_solver|].
      destruct (sibling_in i d) as [[l|]|] eqn:Hs; simpl in Hacc;
        [|by apply not_elem_of_nil in Hacc..].
      apply list_elem_of_singleton in Hacc as ->. right. done.
    + intros x e Hin. by left.
    + intros x Hx. by left.
    + intros tm Hin. by left.
    + intros b' Hin. by left.
  - (* toggleMobileMenu *)
    rewrite toggleMobileMenu_spec. cbn [snd].
    destruct (head (select (ByClass "sidebar") d)) as [sb|] eqn:Hsb;
      cbn [pg doc trace timers listeners]; split_and!.
    + intros acc Hacc. rewrite app_nil_l in Hacc.
      by apply list_elem_of_singleton in Hacc as ->.
    + intros x e [Hin| ->]%flat_update_frame; [by left|right].
      exists (Access sb "classList" Write). set_solver.
    + intros x Hx. left. by rewrite ids_update.
    + intros tm Hin. by left.
    + intros b' Hin. by left.
    + intros acc Hacc. by apply not_elem_of_nil in Hacc.
    + intros x e Hin. by left.
    + intros x Hx. by left.
    + intros tm Hin. by left.
    + intros b' Hin. by left.
Qed.

Lemma script_footprint_witness :
  let p := advance_to 5200 Sample.page0 in
  let cb := OnTimer (RemoveAlert 1) in
  let m := exec (run cb) p in
  (∀ acc, acc ∈ trace m → may_touch cb (doc p) acc)
  ∧ framed p m
  ∧ kept p m
  ∧ (∀ tm, tm ∈ timers (pg m) →
       tm ∈ timers p ∨ registered Sample.body (OnTimer (job tm)))
  ∧ (∀ b, b ∈ listeners (pg m) →
       b ∈ listeners p
       ∨ (cb = OnReady
          ∧ ∀ user, registered Sample.body (OnEvent (b_target b) user (b_listener b)))).
Proof.
  apply (script_footprint Sample.body (advance_to 5200 Sample.page0)
           (OnTimer (RemoveAlert 1))).
  - constructor. compute_done.
  - intros [=].
  - compute_done.
Defined.

(** C9 as stated fails: on a change event of the file input 10 the
    listener reads the tagName of the element 11 that follows it, a plain
    <small> that belongs to none of the listed conventions. *)
Lemma file_input_sibling_is_read :
  let m := dispatch Change 10 (λ _, false) Sample.page0 in
  trace m !! 2 = Some (Access 11 "tagName" Read)
  ∧ conventional (doc Sample.page0) 11 = false
  ∧ ¬ (∀ acc, acc ∈ trace m → conventional (doc Sample.page0) (a_elem acc) = true).
Proof.
  split_and!; [reflexivity | reflexivity |].
  intros H. specialize (H (Access 11 "tagName" Read)).
  assert (Hin : Access 11 "tagName" Read
                ∈ trace (dispatch Change 10 (λ _, false) Sample.page0)).
  { apply list_elem_of_lookup. by exists 2. }
  specialize (H Hin). by vm_compute in H.
Qed.

(** ** Execution *)

(** C10, as amended.  The callbacks of main.js (the DOMContentLoaded
    callback, the timers, the listeners and the exported function) never
    cancel a timer and never remove a listener: the timer queue and the
    listener table only grow.  They write no global and share no state
    but the page: the globals, the clock and the DOMContentLoaded
    listeners are as before, and the dialogs shown only grow.  The click
    and the submit listener do block on a dialog: the click listener
    shows a confirmation dialog and prevents the click according to the
    answer it waits for, and the submit listener shows an alert when it
    prevents the submission.  Timers are registered by the
    DOMContentLoaded callback and by the fading of an alert only, and
    listeners by the DOMContentLoaded callback only. *)
Theorem callbacks_never_cancel cb p :
  let m := exec (run cb) p in
  timers p `prefix_of` timers (pg m)
  ∧ listeners p `prefix_of` listeners (pg m)
  ∧ dialogs p `prefix_of` dialogs (pg m)
  ∧ globals (pg m) = globals p
  ∧ clock (pg m) = clock p
  ∧ ready_listeners (pg m) = ready_listeners p
  ∧ (timers (pg m) ≠ timers p → cb = OnReady ∨ ∃ a, cb = OnTimer (FadeOut a))
  ∧ (listeners (pg m) ≠ listeners p → cb = OnReady)
  ∧ (∀ this user, cb = OnEvent this user ConfirmDelete →
       dialogs (pg m)
       = dialogs p ++ [ConfirmBox "Are you sure you want to delete this item?"]
       ∧ defaultPrevented m = negb (user 0))
  ∧ (∀ this user f, cb = OnEvent this user (ValidateForm f) →
       dialogs (pg m)
       = dialogs p ++ (if defaultPrevented m
                       then [AlertBox "Please fill in all required fields."] else [])).
Proof.
  destruct p as [d c ts ls r ds g]. cbn zeta. unfold exec.
  destruct cb as [|[a|a]|this user [|f|]|[]]; cbn [run run_listener call].
  - rewrite init_spec. cbn [snd pg timers listeners dialogs globals clock ready_listeners].
    split_and!; try done; try (by eexists); auto.
  - rewrite run_task_FadeOut.
    cbn [snd pg timers listeners dialogs globals clock ready_listeners].
    split_and!; try done; try (by eexists); eauto.
  - rewrite run_task_RemoveAlert.
    cbn [snd pg timers listeners dialogs globals clock ready_listeners].
    split_and!; try done; try (by eexists).
  - rewrite confirm_delete_spec. unfold set_dialogs.
    cbn [snd pg timers listeners dialogs globals clock ready_listeners defaultPrevented].
    split_and!; try done; try (by eexists).
    intros this' user' [= ? ?]. subst. split; [done|]. by destruct (user' 0).
  - rewrite validate_form_spec.
    cbn [snd pg timers listeners dialogs globals clock ready_listeners defaultPrevented].
    split_and!; try done; try (by eexists).
    + destruct (blocks f d); [by eexists | by exists []; rewrite app_nil_r].
    + intros this' user' f' [= ? ? ?]. subst.
      destruct (blocks f' d); [done | by rewrite app_nil_r].
  - rewrite file_change_spec.
    cbn [snd pg timers listeners dialogs globals clock ready_listeners].
    split_and!; try done; try (by eexists).
  - rewrite toggleMobileMenu_spec. cbn [snd].
    destruct (head (select (ByClass "sidebar") d));
      cbn [pg timers listeners dialogs globals clock ready_listeners];
      split_and!; try done; try (by eexists).
Qed.

(** C10 as stated fails: not every piece of work is triggered by a DOM
    event or a timer.  Right after the file has run, with no event
    dispatched, no timer pending and no listener attached, the top level
    has already registered the DOMContentLoaded callback and written two
    globals, and a call of [AEGIS.toggleMobileMenu] by another script
    changes the document. *)
Lemma work_without_event_or_timer :
  let p0 := fresh Sample.body 0 in
  let p := pg (loadScript Classic p0) in
  timers p = [] ∧ listeners p = []
  ∧ ready_listeners p = S (ready_listeners p0)
  ∧ globals p ≠ globals p0
  ∧ ∃ m, call_member "AEGIS" "toggleMobileMenu" p = Some m
         ∧ doc (pg m) ≠ doc p
         ∧ (classList <$> get 2 (doc (pg m))) = Some ["sidebar"; "mobile-open"].
Proof.
  split_and!; [reflexivity.. | by vm_compute |].
  eexists. split; [reflexivity|]. split; [by vm_compute | reflexivity].
Qed.

(** * Further properties of main.js *)

(** ** What the listener table holds after loading *)

Lemma dispatch_nothing_on_path ty i user p :
  listeners_on_path ty (event_path i (doc p)) (listeners p) = [] →
  dispatch ty i user p = Machine p false 0 [].
Proof. intros H. unfold dispatch, exec. by rewrite H. Qed.

(** X1.  After loading, an element carries exactly the listeners [init]
    gave it: one click listener if it is a 'btn-danger' element with a
    delete href, one submit listener if it is a form, one change listener
    if it is a file input, found in the document at DOMContentLoaded.  An
    event that meets no such element on its way from its target up the
    tree, also one on an element added to the page later, runs nothing
    and leaves the page as it was. *)
Theorem loaded_listeners_exact k d0 t0 p i ty user :
  NoDup (ids d0) → listeners p = listeners (loaded k d0 t0) →
  listeners_of i ty (listeners p)
  = match ty with
    | Click => if decide (i ∈ delete_buttons d0) then [ConfirmDelete] else []
    | Submit => if decide (i ∈ forms_of d0) then [ValidateForm i] else []
    | Change => if decide (i ∈ file_inputs d0) then [FileChange] else []
    end
  ∧ ((ty = Click → ∀ x, x ∈ event_path i (doc p) → x ∉ delete_buttons d0) →
     (ty = Submit → ∀ x, x ∈ event_path i (doc p) → x ∉ forms_of d0) →
     (ty = Change → ∀ x, x ∈ event_path i (doc p) → x ∉ file_inputs d0) →
     dispatch ty i user p = Machine p false 0 []).
Proof.
  intros Hnd Hl.
  assert (Hnone : ∀ (P : nat → Prop) `{∀ x, Decision (P x)} (l : list nat),
            (∀ x, x ∈ l → ¬ P x) → filter P l = []).
  { intros P ? l H. induction l as [|y l IH]; [done|].
    rewrite filter_cons, decide_False by (apply H; left).
    apply IH. intros x Hx. apply H. by right. }
  split.
  - rewrite Hl, loaded_spec. cbn [listeners]. destruct ty.
    + by apply click_listeners_loaded.
    + by apply submit_listeners_loaded.
    + by apply change_listeners_loaded.
  - intros H1 H2 H3. apply dispatch_nothing_on_path.
    rewrite Hl, loaded_spec. cbn [listeners]. destruct ty.
    + rewrite click_path_loaded, Hnone by auto. done.
    + rewrite submit_path_loaded, Hnone by auto. done.
    + rewrite change_path_loaded, Hnone by auto. done.
Qed.

Lemma loaded_listeners_exact_witness :
  let p := Sample.page0 in
  listeners_of 2 Click (listeners p)
  = (if decide (2 ∈ delete_buttons Sample.body) then [ConfirmDelete] else [])
  ∧ ((Click = Click → ∀ x, x ∈ event_path 2 (doc p) → x ∉ delete_buttons Sample.body) →
     (Click = Submit → ∀ x, x ∈ event_path 2 (doc p) → x ∉ forms_of Sample.body) →
     (Click = Change → ∀ x, x ∈ event_path 2 (doc p) → x ∉ file_inputs Sample.body) →
     dispatch Click 2 (λ _, true) p = Machine p false 0 []).
Proof.
  apply (loaded_listeners_exact Classic Sample.body 0 Sample.page0 2 Click (λ _, true)).
  - compute_done.
  - reflexivity.
Defined.

(** X2.  The confirmation hangs on the class: a link of the page whose
    href contains 'delete' but which lacks the class 'btn-danger' gets no
    click listener, so a click on it shows no dialog and is not
    prevented, unless the link lies inside a delete link that has the
    class. *)
Theorem delete_link_without_class_is_unguarded k d0 t0 p b e user :
  NoDup (ids d0) → (b, e) ∈ flat d0 → "btn-danger" ∉ classList e →
  listeners p = listeners (loaded k d0 t0) →
  filter (λ a, a ∈ delete_buttons d0) (default [] (ancestors b (doc p))) = [] →
  let m := dispatch Click b user p in
  listeners_of b Click (listeners p) = []
  ∧ pg m = p ∧ defaultPrevented m = false ∧ dialogs (pg m) = dialogs p.
Proof.
  intros Hnd Hin Hc Hl Hup m. subst m.
  assert (Hb : b ∉ delete_buttons d0).
  { intros [Hc' _]%(elem_of_delete_buttons b e d0); done. }
  split.
  { rewrite Hl, loaded_spec. cbn [listeners].
    rewrite click_listeners_loaded by done. by rewrite decide_False. }
  rewrite dispatch_nothing_on_path; [done|].
  rewrite Hl, loaded_spec. cbn [listeners].
  rewrite click_path_loaded by done. fold (guards_on_path d0 b (doc p)).
  rewrite guards_on_path_cons, decide_False, Hup by done. done.
Qed.

Lemma delete_link_without_class_is_unguarded_witness :
  let p := loaded Classic Sample.page_with_plain_link 0 in
  let m := dispatch Click 1 (λ _, false) p in
  listeners_of 1 Click (listeners p) = []
  ∧ pg m = p ∧ defaultPrevented m = false ∧ dialogs (pg m) = dialogs p.
Proof.
  apply (delete_link_without_class_is_unguarded Classic Sample.page_with_plain_link 0
           (loaded Classic Sample.page_with_plain_link 0) 1
           (Sample.link [] "/items/3/delete") (λ _, false)).
  - compute_done.
  - apply list_elem_of_lookup. by exists 1.
  - compute_done.
  - reflexivity.
  - reflexivity.
Defined.

(** ** The DOMContentLoaded callback *)

(** X3.  On any page the DOMContentLoaded callback leaves the document,
    the clock, the dialogs and the globals as they are and prevents
    nothing; it appends one fade timer per alert, in document order, all
    due 5000 ms after the moment it runs, and appends the listeners for
    the delete buttons, then the forms, then the file inputs. *)
Theorem init_only_registers p :
  let m := exec init p in
  doc (pg m) = doc p
  ∧ clock (pg m) = clock p
  ∧ dialogs (pg m) = dialogs p
  ∧ globals (pg m) = globals p
  ∧ defaultPrevented m = false
  ∧ timers (pg m) = timers p ++ fade_timers (clock p + 5000) (alerts_of (doc p))
  ∧ listeners (pg m) = listeners p ++ init_listeners (doc p).
Proof.
  destruct p as [d c ts ls r ds g]. cbn zeta. unfold exec. by rewrite init_spec.
Qed.

(** ** The submit listener, once more *)

Lemma repaint_equiv l l' d j e :
  (j ∈ l ↔ j ∈ l') → repaint l d j e = repaint l' d j e.
Proof.
  intros H. unfold repaint. destruct (decide (j ∈ l)) as [Hj|Hj].
  - by rewrite decide_True by by apply H.
  - rewrite decide_False; [done|]. intros Hj'. by apply Hj, H.
Qed.

Lemma existsb_blocks_map_doc g gs d :
  (∀ j e, matches HasRequired (g j e) = matches HasRequired e) →
  (∀ j e, value (g j e) = value e) →
  existsb (λ h, blocks h (map_doc g d)) gs = existsb (λ h, blocks h d) gs.
Proof.
  intros Hr Hv. induction gs as [|h gs IH]; simpl; [done|].
  rewrite IH. f_equal. by apply blocks_map_doc.
Qed.

(** X5.  Submitting a form of the page again without any change in
    between gives the same verdict, leaves the document as the first
    submission left it and shows the same dialogs once more: for a form
    with no form of the page around it, the alert once more if the
    submission is blocked. *)
Theorem resubmission_changes_nothing k d0 t0 p f u1 u2 :
  NoDup (ids d0) → f ∈ forms_of d0 →
  listeners p = listeners (loaded k d0 t0) →
  let m1 := dispatch Submit f u1 p in
  let m2 := dispatch Submit f u2 (pg m1) in
  doc (pg m2) = doc (pg m1)
  ∧ defaultPrevented m2 = defaultPrevented m1
  ∧ (∃ shown, dialogs (pg m1) = dialogs p ++ shown
              ∧ dialogs (pg m2) = dialogs (pg m1) ++ shown)
  ∧ (filter (λ g, g ∈ forms_of d0) (default [] (ancestors f (doc p))) = [] →
     dialogs (pg m2)
     = dialogs (pg m1)
       ++ (if defaultPrevented m1
           then [AlertBox "Please fill in all required fields."] else [])).
Proof.
  intros Hnd Hf Hl. cbn zeta.
  destruct p as [d c ts ls r ds g]. cbn [listeners doc dialogs] in *. subst ls.
  rewrite (dispatch_submit_loaded k d0 t0) by done. cbn [pg].
  rewrite (dispatch_submit_loaded k d0 t0) by done.
  cbn [pg doc defaultPrevented dialogs].
  set (gs := forms_on_path d0 f d).
  set (U := painted gs d).
  assert (Hr : ∀ j e, matches HasRequired (repaint U d j e) = matches HasRequired e)
    by (intros; apply matches_repaint).
  pose proof (value_repaint U d) as Hv.
  unfold forms_on_path. rewrite event_path_map_doc. fold (forms_on_path d0 f d). fold gs.
  rewrite painted_map_doc by done. fold U.
  assert (Hfl : filter (λ h, blocks h (map_doc (repaint U d) d) = true) gs
                = filter (λ h, blocks h d = true) gs).
  { apply list_filter_iff. intros h. by rewrite blocks_map_doc. }
  assert (He : existsb (λ h, blocks h (map_doc (repaint U d) d)) gs
               = existsb (λ h, blocks h d) gs)
    by by apply existsb_blocks_map_doc.
  rewrite Hfl, He. split_and!.
  - rewrite map_doc_map_doc. apply map_doc_ext. intros j e.
    rewrite repaint_app. apply repaint_equiv. rewrite elem_of_app. naive_solver.
  - done.
  - eexists. split; done.
  - intros Hup. unfold gs. rewrite forms_on_path_head, Hup by done.
    rewrite filter_cons, filter_nil. cbn [existsb]. rewrite orb_false_r.
    destruct (blocks f d); [by rewrite decide_True | by rewrite decide_False].
Qed.

Lemma resubmission_changes_nothing_witness :
  let p := loaded Classic Sample.space_form 0 in
  let m1 := dispatch Submit 0 (λ _, true) p in
  let m2 := dispatch Submit 0 (λ _, true) (pg m1) in
  doc (pg m2) = doc (pg m1)
  ∧ defaultPrevented m2 = defaultPrevented m1
  ∧ (∃ shown, dialogs (pg m1) = dialogs p ++ shown
              ∧ dialogs (pg m2) = dialogs (pg m1) ++ shown)
  ∧ (filter (λ g, g ∈ forms_of Sample.space_form) (default [] (ancestors 0 (doc p))) = [] →
     dialogs (pg m2)
     = dialogs (pg m1)
       ++ (if defaultPrevented m1
           then [AlertBox "Please fill in all required fields."] else [])).
Proof.
  apply (resubmission_changes_nothing Classic Sample.space_form 0
           (loaded Classic Sample.space_form 0) 0 (λ _, true) (λ _, true)).
  - compute_done.
  - compute_done.
  - reflexivity.
Defined.

(** X6.  A submit event of a form of the page changes nothing but border
    colours, and only those of required elements the submit listeners on
    the path of the event get to: the tree keeps its elements and their
    order, every selector selects what it selected before, every value is
    what the user typed, every element that is not such a field keeps all
    its properties, and timers, listeners, clock and globals stay as they
    are. *)
Theorem submit_changes_border_colours_only k d0 t0 p f user :
  NoDup (ids d0) → f ∈ forms_of d0 →
  listeners p = listeners (loaded k d0 t0) →
  let m := dispatch Submit f user p in
  let fields := painted (forms_on_path d0 f (doc p)) (doc p) in
  doc (pg m) = map_doc (repaint fields (doc p)) (doc p)
  ∧ (∀ x, x ∈ fields →
       is_Some (value_of x (doc p))
       ∧ ∃ g, g ∈ forms_on_path d0 f (doc p) ∧ x ∈ required_fields g (doc p))
  ∧ ids (doc (pg m)) = ids (doc p)
  ∧ (∀ sel, select sel (doc (pg m)) = select sel (doc p))
  ∧ (∀ x, value_of x (doc (pg m)) = value_of x (doc p))
  ∧ (∀ x, x ∉ fields → get x (doc (pg m)) = get x (doc p))
  ∧ timers (pg m) = timers p
  ∧ listeners (pg m) = listeners p
  ∧ clock (pg m) = clock p
  ∧ globals (pg m) = globals p.
Proof.
  intros Hnd Hf Hl. cbn zeta.
  destruct p as [d c ts ls r ds g]. cbn [listeners doc dialogs] in *. subst ls.
  rewrite (dispatch_submit_loaded k d0 t0) by done.
  cbn [pg doc timers listeners clock globals].
  split_and!; try done.
  - intros x (h & Hh & Hx)%elem_of_painted.
    destruct (elem_of_reached _ _ _ Hx) as [Hreq Hv]. eauto.
  - apply ids_map_doc.
  - intros sel. apply select_map_doc. intros. apply matches_repaint.
  - intros x. apply value_of_map_doc. intros. apply value_repaint.
  - intros x Hx. rewrite get_map_doc. destruct (get x d); [|done].
    simpl. unfold repaint. by rewrite decide_False.
Qed.

Lemma submit_changes_border_colours_only_witness :
  let p := Sample.page0 in
  let m := dispatch Submit 5 (λ _, true) p in
  let fields := painted (forms_on_path Sample.body 5 (doc p)) (doc p) in
  doc (pg m) = map_doc (repaint fields (doc p)) (doc p)
  ∧ (∀ x, x ∈ fields →
       is_Some (value_of x (doc p))
       ∧ ∃ g, g ∈ forms_on_path Sample.body 5 (doc p) ∧ x ∈ required_fields g (doc p))
  ∧ ids (doc (pg m)) = ids (doc p)
  ∧ (∀ sel, select sel (doc (pg m)) = select sel (doc p))
  ∧ (∀ x, value_of x (doc (pg m)) = value_of x (doc p))
  ∧ (∀ x, x ∉ fields → get x (doc (pg m)) = get x (doc p))
  ∧ timers (pg m) = timers p
  ∧ listeners (pg m) = listeners p
  ∧ clock (pg m) = clock p
  ∧ globals (pg m) = globals p.
Proof.
  apply (submit_changes_border_colours_only Classic Sample.body 0 Sample.page0 5
           (λ _, true)).
  - compute_done.
  - compute_done.
  - reflexivity.
Defined.

(** ** The file included twice *)

Lemma loaded_twice_spec k d t0 :
  loaded_twice k d t0
  = Page d t0 (init_timers t0 d ++ init_timers t0 d)
      (init_listeners d ++ init_listeners d) 2 []
      (script_globals k (script_globals k ∅)).
Proof.
  unfold loaded_twice, fresh. rewrite loadScript_spec. cbn [pg].
  rewrite loadScript_spec. cbn [pg].
  unfold DOMContentLoaded, exec, attempt. simpl.
  unfold mbind, M_bind. rewrite init_spec. cbn beta iota. cbn [snd]. rewrite init_spec.
  cbn [snd pg app]. done.
Qed.

Lemma click_path_loaded_twice path d :
  NoDup (ids d) →
  listeners_on_path Click path (init_listeners d ++ init_listeners d)
  = (λ b, (b, ConfirmDelete))
      <$> (filter (λ b, b ∈ delete_buttons d) path ≫= λ b, [b; b]).
Proof.
  intros Hnd. induction path as [|x path IH]; [done|].
  rewrite listeners_on_path_cons, IH, listeners_of_app, click_listeners_loaded,
    filter_cons by done.
  destruct (decide (x ∈ delete_buttons d)); [|done].
  by rewrite bind_cons, fmap_app.
Qed.

Lemma length_twice (l : list nat) : length (l ≫= λ b, [b; b]) = 2 * length l.
Proof. induction l as [|x l IH]; [done|]. rewrite bind_cons. simpl. rewrite IH. lia. Qed.

(** X4.  Nothing in the file guards against its being included twice:
    then every alert has two fade timers and every element two listeners
    of its kind, so that a click on a delete button asks for confirmation
    twice for the button and twice for every delete button around it, and
    is prevented if the user declines any of these dialogs; the alerts
    are still out of the document 5500 ms after DOMContentLoaded, with no
    timer left. *)
Theorem double_inclusion_doubles_the_work k d t0 :
  NoDup (ids d) →
  let p := loaded_twice k d t0 in
  let ask := ConfirmBox "Are you sure you want to delete this item?" in
  timers p = fade_timers (t0 + 5000) (alerts_of d ++ alerts_of d)
  ∧ listeners p = init_listeners d ++ init_listeners d
  ∧ (∀ b user, b ∈ delete_buttons d →
       let m := dispatch Click b user p in
       let n := length (guards_on_path d b d) in
       dialogs (pg m) = replicate (2 * n) ask
       ∧ defaultPrevented m = declined user 0 (2 * n)
       ∧ (filter (λ a, a ∈ delete_buttons d) (default [] (ancestors b d)) = [] →
          dialogs (pg m) = [ask; ask]
          ∧ defaultPrevented m = negb (user 0) || negb (user 1)))
  ∧ (∀ a t, a ∈ alerts_of d → (t0 + 5500 ≤ t)%N →
       (a ∉ ids (doc (advance_to t p))) ∧ timers (advance_to t p) = []).
Proof.
  intros Hnd p ask. subst p. rewrite loaded_twice_spec. cbn [timers listeners].
  split_and!.
  - unfold init_timers, fade_timers. by rewrite fmap_app.
  - done.
  - intros b user Hb. cbn zeta. unfold dispatch, exec. cbn [listeners doc].
    rewrite click_path_loaded_twice by done. fold (guards_on_path d b d).
    rewrite run_guards, length_twice. cbn [pg dialogs defaultPrevented app orb].
    split_and!; [done | done |].
    intros Hup. rewrite guards_on_path_cons, decide_True, Hup by done.
    cbn [app length Nat.mul Nat.add replicate]. unfold declined.
    cbn [seq existsb]. by rewrite orb_false_r.
  - intros a t Ha Ht.
    replace (init_timers t0 d ++ init_timers t0 d)
      with (fade_timers (t0 + 5000) (alerts_of d ++ alerts_of d))
      by (unfold init_timers, fade_timers; by rewrite fmap_app).
    rewrite advance_to_schedule by lia.
    assert (t0 + 5000 ≤ t)%N as ->%N.ltb_ge by lia.
    assert (t0 + 5000 + 500 ≤ t)%N as ->%N.ltb_ge by lia.
    cbn [doc timers]. split; [|done]. apply not_elem_of_remove_all. set_solver.
Qed.

Lemma double_inclusion_doubles_the_work_witness :
  let d := Sample.body in
  let p := loaded_twice Classic d 0 in
  let ask := ConfirmBox "Are you sure you want to delete this item?" in
  timers p = fade_timers (0 + 5000) (alerts_of d ++ alerts_of d)
  ∧ listeners p = init_listeners d ++ init_listeners d
  ∧ (∀ b user, b ∈ delete_buttons d →
       let m := dispatch Click b user p in
       let n := length (guards_on_path d b d) in
       dialogs (pg m) = replicate (2 * n) ask
       ∧ defaultPrevented m = declined user 0 (2 * n)
       ∧ (filter (λ a, a ∈ delete_buttons d) (default [] (ancestors b d)) = [] →
          dialogs (pg m) = [ask; ask]
          ∧ defaultPrevented m = negb (user 0) || negb (user 1)))
  ∧ (∀ a t, a ∈ alerts_of d → (0 + 5500 ≤ t)%N →
       (a ∉ ids (doc (advance_to t p))) ∧ timers (advance_to t p) = []).
Proof.
  apply (double_inclusion_doubles_the_work Classic Sample.body 0). compute_done.
Defined.

(** ** What the timers leave alone *)

Lemma faded_or_same_gives_get d d' (alerts : list nat) x :
  NoDup (ids d) → NoDup (ids d') →
  (∀ y e, (y, e) ∈ flat d' →
     ∃ e0, (y, e0) ∈ flat d ∧ (e = e0 ∨ (y ∈ alerts ∧ e = fade e0))) →
  x ∈ ids d' → x ∉ alerts → get x d' = get x d ∧ is_Some (get x d).
Proof.
  intros Hnd Hnd' Hframe [e He]%elem_of_ids Hx.
  destruct (Hframe x e He) as (e0 & He0 & [->|[? _]]); [|done].
  rewrite (get_unique x e0 d'), (get_unique x e0 d) by done. eauto.
Qed.

(** X7.  Whatever the time, the timers of the loaded page touch alerts
    only: every element still in the document is as it was at
    DOMContentLoaded, or is an alert carrying the fade style; an element
    that is neither an alert nor inside one stays in the document with all
    its properties; and no listener or dialog comes or goes. *)
Theorem timers_touch_alerts_only k d t0 t :
  NoDup (ids d) →
  let p := loaded k d t0 in
  (∀ x e, (x, e) ∈ flat (doc (advance_to t p)) →
     ∃ e0, (x, e0) ∈ flat d ∧ (e = e0 ∨ (x ∈ alerts_of d ∧ e = fade e0)))
  ∧ (∀ x, x ∈ ids d → x ∉ alerts_of d →
       (∀ a, a ∈ alerts_of d → x ∉ below a d) →
       get x (doc (advance_to t p)) = get x d ∧ is_Some (get x d))
  ∧ listeners (advance_to t p) = listeners p
  ∧ dialogs (advance_to t p) = dialogs p.
Proof.
  intros Hnd p. subst p. rewrite loaded_spec.
  change (init_timers t0 d) with (fade_timers (t0 + 5000) (alerts_of d)).
  rewrite advance_to_schedule by lia.
  assert (Hfade : ∀ x e, (x, e) ∈ flat (fade_all (alerts_of d) d) →
            ∃ e0, (x, e0) ∈ flat d ∧ (e = e0 ∨ (x ∈ alerts_of d ∧ e = fade e0))).
  { intros x e. apply flat_fade_all. }
  assert (Hnd1 : NoDup (ids (fade_all (alerts_of d) d))).
  { by rewrite fade_all_map_doc, ids_map_doc. }
  destruct (t <? t0 + 5000)%N; [|destruct (t <? t0 + 5000 + 500)%N];
    cbn [doc listeners dialogs]; (split_and!; [| |done..]).
  - intros x e Hin. exists e. auto.
  - intros x Hx Ha _. split; [done|]. apply elem_of_ids in Hx as [e He].
    rewrite (get_unique x e d) by done. eauto.
  - done.
  - intros x Hx Ha _. apply (faded_or_same_gives_get d _ (alerts_of d)); try done.
    by rewrite fade_all_map_doc, ids_map_doc.
  - intros x e Hin. apply Hfade. by apply (flat_remove_all_subseteq (alerts_of d)).
  - intros x Hx Ha Hb. apply (faded_or_same_gives_get d _ (alerts_of d)); try done.
    + by apply remove_all_NoDup.
    + intros y e Hin. apply Hfade. by apply (flat_remove_all_subseteq (alerts_of d)).
    + apply ids_remove_all_keeps; [done| |done|].
      * by rewrite fade_all_map_doc, ids_map_doc.
      * intros a Ha'. rewrite fade_all_map_doc, below_map_doc. by apply Hb.
Qed.

Lemma timers_touch_alerts_only_witness :
  let p := loaded Classic Sample.page_with_plain_link 0 in
  let d := Sample.page_with_plain_link in
  (∀ x e, (x, e) ∈ flat (doc (advance_to 6000 p)) →
     ∃ e0, (x, e0) ∈ flat d ∧ (e = e0 ∨ (x ∈ alerts_of d ∧ e = fade e0)))
  ∧ (∀ x, x ∈ ids d → x ∉ alerts_of d →
       (∀ a, a ∈ alerts_of d → x ∉ below a d) →
       get x (doc (advance_to 6000 p)) = get x d ∧ is_Some (get x d))
  ∧ listeners (advance_to 6000 p) = listeners p
  ∧ dialogs (advance_to 6000 p) = dialogs p.
Proof.
  apply (timers_touch_alerts_only Classic Sample.page_with_plain_link 0 6000).
  compute_done.
Defined.
